(** * Black-Scholes pricing and implied volatility (option-valuation-backend/app.py)

    A shallow embedding of the numeric engine of [app.py]: [black_scholes],
    [manaster_koehler_initial_guess] and [implied_volatility], and of the
    request handler [calculate] that calls it.

    Conventions of the model.
    - Python floats are taken as real numbers with exact arithmetic (type
      [R]); rounding, overflow, infinities and NaN are not represented.
    - [None] is [None]; a returned dictionary is the record [PricingResult].
    - A Python exception is the outcome [Raised]; the only operation of the
      engine that can raise on real numbers is the true division [S / K] of
      two Python floats ([ZeroDivisionError]).  Divisions whose operands
      are numpy scalars do not raise; they are [Rdiv].
    - [norm.pdf] and [norm.cdf] of [scipy.stats] are the density of the
      standard normal law and its integral.
    - A [for _ in range(n)] loop is [for_range n], driven by a body that
      says how the iteration ends: [Return], [Break] or [Continue]. *)

From Stdlib Require Import Reals Lra String List.
Import ListNotations.

Open Scope R_scope.

(** ** scipy.stats.norm *)

Module Normal.

(** [norm.pdf]: exp(-x**2/2) / sqrt(2*pi). *)
Definition pdf (x : R) : R := exp (- x ^ 2 / 2) / sqrt (2 * PI).

Lemma pdf_derivable_pt_lim (x : R) :
  derivable_pt_lim pdf x (- x * pdf x).
Proof.
  unfold pdf.
  assert (Hx : derivable_pt_lim (fun y : R => - y ^ 2 / 2) x (- x)).
  { replace (- x) with (- (INR 2 * x ^ Nat.pred 2) / 2)
      by (simpl; field).
    apply (derivable_pt_lim_div_scal (fun y => - y ^ 2)).
    apply (derivable_pt_lim_opp (fun y => y ^ 2)).
    apply derivable_pt_lim_pow. }
  pose proof (derivable_pt_lim_comp _ exp x _ _ Hx
                (derivable_pt_lim_exp (- x ^ 2 / 2))) as Hc.
  pose proof (derivable_pt_lim_div_scal _ x _ (sqrt (2 * PI)) Hc) as Hd.
  unfold comp in Hd.
  replace (- x * (exp (- x ^ 2 / 2) / sqrt (2 * PI)))
    with (exp (- x ^ 2 / 2) * - x / sqrt (2 * PI)) by (unfold Rdiv; ring).
  exact Hd.
Qed.

Lemma pdf_continuity : continuity pdf.
Proof.
  intro x. apply derivable_continuous_pt.
  exists (- x * pdf x). apply pdf_derivable_pt_lim.
Qed.

Lemma pdf_integrable (a b : R) : Riemann_integrable pdf a b.
Proof.
  destruct (Rle_dec a b) as [Hab | Hab].
  - apply continuity_implies_RiemannInt; [exact Hab |].
    intros x _. apply pdf_continuity.
  - apply RiemannInt_P1.
    apply continuity_implies_RiemannInt; [lra |].
    intros x _. apply pdf_continuity.
Qed.

(** [norm.cdf]: the integral of the density up to [x], written from the
    median: 1/2 + the integral of [pdf] from 0 to [x]. *)
Definition cdf (x : R) : R := 1 / 2 + RiemannInt (pdf_integrable 0 x).

End Normal.

(** ** Outcomes of a Python call *)

Inductive exn : Set := ZeroDivisionError.

Inductive outcome (A : Type) : Type :=
| Returned (a : A)
| Raised (e : exn).

Arguments Returned {A} a.
Arguments Raised {A} e.

Definition bind {A B : Type} (c : outcome A) (k : A -> outcome B) : outcome B :=
  match c with
  | Returned a => k a
  | Raised e => Raised e
  end.

Notation "x <- c ;; k" := (bind c (fun x => k))
  (at level 61, c at next level, right associativity).

(** [x / y] on two Python floats. *)
Definition py_truediv (x y : R) : outcome R :=
  if Req_dec_T y 0 then Raised ZeroDivisionError else Returned (x / y).

(** Comparisons as the booleans Python tests. *)
Definition Rleb (x y : R) : bool := if Rle_dec x y then true else false.
Definition Rltb (x y : R) : bool := if Rlt_dec x y then true else false.
Definition Reqb (x y : R) : bool := if Req_dec_T x y then true else false.

(** ** black_scholes *)

Record PricingResult : Set := mkPricingResult {
  optionPrice : R;
  delta : R;
  gamma : R;
  vega : R;
  theta : R;
  rho : R
}.

Definition black_scholes (S K T r sigma : R) (option_type : string)
  : outcome (option PricingResult) :=
  if (Rleb T 0 || Rleb S 0 || Rleb K 0 || Rleb sigma 0)%bool then
    Returned None
  else
    q <- py_truediv S K ;;
    let d1 := (ln q + (r + 0.5 * sigma ^ 2) * T) / (sigma * sqrt T) in
    let d2 := d1 - sigma * sqrt T in
    let priced :=
      if String.eqb option_type "call" then
        Some (S * Normal.cdf d1 - K * exp (- r * T) * Normal.cdf d2,
              Normal.cdf d1)
      else if String.eqb option_type "put" then
        Some (K * exp (- r * T) * Normal.cdf (- d2) - S * Normal.cdf (- d1),
              - Normal.cdf (- d1))
      else None in
    match priced with
    | None => Returned None
    | Some (price, delta) =>
        let gamma := Normal.pdf d1 / (S * sigma * sqrt T) in
        let vega := S * Normal.pdf d1 * sqrt T in
        let theta :=
          (- S * Normal.pdf d1 * sigma) / (2 * sqrt T)
          - r * K * exp (- r * T)
            * (if String.eqb option_type "call" then Normal.cdf d2
               else Normal.cdf (- d2)) in
        let rho :=
          K * T * exp (- r * T)
          * (if String.eqb option_type "call" then Normal.cdf d2
             else - Normal.cdf (- d2)) in
        Returned (Some {| optionPrice := price;
                          delta := delta;
                          gamma := gamma;
                          vega := vega / 100;
                          theta := theta / 365;
                          rho := rho / 100 |})
    end.

(** ** manaster_koehler_initial_guess *)

Definition manaster_koehler_initial_guess
  (S K T r option_price : R) (option_type : string) : outcome R :=
  let intrinsic_value :=
    if String.eqb option_type "call" then Rmax 0 (S - K) else Rmax 0 (K - S) in
  let time_value := option_price - intrinsic_value in
  if Rleb time_value 0 then Returned 0.0001
  else
    q <- py_truediv S K ;;
    Returned (sqrt (2 * Rabs ((ln q + r * T) / T))).

(** ** Loops *)

(** How one run of a loop body ends. *)
Inductive control (St : Type) : Type :=
| Return (v : option R)
| Break
| Continue (s : St).

Arguments Return {St} v.
Arguments Break {St}.
Arguments Continue {St} s.

(** How a loop ends: the function returned from inside it, or control
    reaches the statement after the loop (by [break] or by exhaustion). *)
Inductive loop_exit : Set :=
| Returns (v : option R)
| Falls_through.

Fixpoint for_range {St : Type} (n : nat) (body : St -> outcome (control St))
  (s : St) : outcome loop_exit :=
  match n with
  | O => Returned Falls_through
  | Datatypes.S n' =>
      c <- body s ;;
      match c with
      | Return v => Returned (Returns v)
      | Break => Returned Falls_through
      | Continue s' => for_range n' body s'
      end
  end.

(** ** implied_volatility *)

Definition MAX_ITERATIONS : nat := 100.
Definition PRECISION : R := 1.0e-5.

Section ImpliedVolatility.

Variables (S K T r option_price : R) (option_type : string).

(** Body of the Newton-Raphson loop; the loop variable is [sigma]. *)
Definition newton_body (sigma : R) : outcome (control R) :=
  bs_result <- black_scholes S K T r sigma option_type ;;
  match bs_result with
  | None => Returned (Return None)
  | Some res =>
      let price := optionPrice res in
      let vega := vega res * 100 in
      let price_diff := price - option_price in
      if Rltb (Rabs price_diff) PRECISION then Returned (Return (Some sigma))
      else if Reqb vega 0 then Returned Break
      else Returned (Continue (sigma - price_diff / vega))
  end.

(** Body of the bisection loop; the loop variables are
    [(sigma_low, sigma_high)]. *)
Definition bisection_body (bracket : R * R) : outcome (control (R * R)) :=
  let '(sigma_low, sigma_high) := bracket in
  let sigma_mid := (sigma_low + sigma_high) / 2 in
  bs_result <- black_scholes S K T r sigma_mid option_type ;;
  match bs_result with
  | None => Returned (Return None)
  | Some res =>
      let price := optionPrice res in
      let price_diff := price - option_price in
      if Rltb (Rabs price_diff) PRECISION then
        Returned (Return (Some sigma_mid))
      else if Rltb 0 price_diff then Returned (Continue (sigma_low, sigma_mid))
      else Returned (Continue (sigma_mid, sigma_high))
  end.

Definition sigma_low0 : R := 1e-5.
Definition sigma_high0 : R := 5.0.

Definition implied_volatility : outcome (option R) :=
  sigma <- manaster_koehler_initial_guess S K T r option_price option_type ;;
  newton <- for_range MAX_ITERATIONS newton_body sigma ;;
  match newton with
  | Returns v => Returned v
  | Falls_through =>
      bisection <- for_range MAX_ITERATIONS bisection_body
                     (sigma_low0, sigma_high0) ;;
      match bisection with
      | Returns v => Returned v
      | Falls_through => Returned None
      end
  end.

End ImpliedVolatility.

(** ** Predicates of the statements *)

(** The guard of [black_scholes] fires. *)
Definition violated (S K T sigma : R) : Prop :=
  T <= 0 \/ S <= 0 \/ K <= 0 \/ sigma <= 0.

(** The test that lets either loop of [implied_volatility] return the
    volatility [sigma]. *)
Definition converged (S K T r option_price : R) (option_type : string)
  (sigma : R) : Prop :=
  exists res : PricingResult,
    black_scholes S K T r sigma option_type = Returned (Some res) /\
    Rabs (optionPrice res - option_price) < PRECISION.

(** The brackets with which the bisection loop runs its body: the first
    one, and the one each [Continue] hands to the next iteration. *)
Inductive bisection_reaches (S K T r option_price : R) (option_type : string)
  : nat -> R * R -> Prop :=
| reaches_first :
    bisection_reaches S K T r option_price option_type 0
      (sigma_low0, sigma_high0)
| reaches_next (i : nat) (bracket bracket' : R * R) :
    bisection_reaches S K T r option_price option_type i bracket ->
    bisection_body S K T r option_price option_type bracket
    = Returned (Continue bracket') ->
    bisection_reaches S K T r option_price option_type (Datatypes.S i)
      bracket'.

(** ** The closed forms as the specification words them *)

Module Spec.

Definition Phi : R -> R := Normal.cdf.
Definition phi : R -> R := Normal.pdf.

Definition d1 (S K T r sigma : R) : R :=
  (ln (S / K) + (r + sigma ^ 2 / 2) * T) / (sigma * sqrt T).

Definition d2 (S K T r sigma : R) : R :=
  d1 S K T r sigma - sigma * sqrt T.

Definition call_price (S K T r sigma : R) : R :=
  S * Phi (d1 S K T r sigma) - K * exp (- (r * T)) * Phi (d2 S K T r sigma).

Definition put_price (S K T r sigma : R) : R :=
  K * exp (- (r * T)) * Phi (- d2 S K T r sigma)
  - S * Phi (- d1 S K T r sigma).

Definition call_delta (S K T r sigma : R) : R := Phi (d1 S K T r sigma).

Definition put_delta (S K T r sigma : R) : R := - Phi (- d1 S K T r sigma).

Definition gamma (S K T r sigma : R) : R :=
  phi (d1 S K T r sigma) / (S * sigma * sqrt T).

Definition vega (S K T r sigma : R) : R :=
  S * phi (d1 S K T r sigma) * sqrt T / 100.

Definition call_theta (S K T r sigma : R) : R :=
  (- S * phi (d1 S K T r sigma) * sigma / (2 * sqrt T)
   - r * K * exp (- (r * T)) * Phi (d2 S K T r sigma)) / 365.

Definition put_theta (S K T r sigma : R) : R :=
  (- S * phi (d1 S K T r sigma) * sigma / (2 * sqrt T)
   - r * K * exp (- (r * T)) * Phi (- d2 S K T r sigma)) / 365.

Definition call_rho (S K T r sigma : R) : R :=
  K * T * exp (- (r * T)) * Phi (d2 S K T r sigma) / 100.

Definition put_rho (S K T r sigma : R) : R :=
  K * T * exp (- (r * T)) * (- Phi (- d2 S K T r sigma)) / 100.

(** The preconditions of the price operation. *)
Definition valid (S K T sigma : R) : Prop :=
  0 < S /\ 0 < K /\ 0 < T /\ 0 < sigma.

End Spec.

(** ** Reading the engine's results *)

(** A field of the record [black_scholes] returns, 0 when it returns
    none. *)
Definition field_of (o : outcome (option PricingResult))
  (field : PricingResult -> R) : R :=
  match o with
  | Returned (Some res) => field res
  | _ => 0
  end.

(** The price of either style in closed form. *)
Definition closed_form_price (S K T r : R) (option_type : string)
  (sigma : R) : R :=
  if String.eqb option_type "call" then Spec.call_price S K T r sigma
  else Spec.put_price S K T r sigma.

(** ** calculate *)

(** A parsed JSON value, as [request.get_json()] hands it over.  A number
    is a real, whether JSON wrote it as an integer or not; the members of
    an object are the items of the Python dict, looked up from the front. *)
#[warnings="-register-all"]
Inductive json : Type :=
| JNull
| JBool (b : bool)
| JNumber (x : R)
| JString (s : string)
| JArray (items : list json)
| JObject (members : list (string * json)).

(** The exceptions [calculate] can meet: [data.get] on something that is
    no dict, [float] on a string it cannot read or on a list, a dict or
    [None], and what the engine raises. *)
Inductive py_error : Type :=
| AttributeError (receiver : json)
| ValueError (text : string)
| TypeError (argument : json)
| EngineError (e : exn).

Inductive attempt (A : Type) : Type :=
| Done (a : A)
| Throw (e : py_error).

Arguments Done {A} a.
Arguments Throw {A} e.

Definition and_then {A B : Type} (c : attempt A) (k : A -> attempt B)
  : attempt B :=
  match c with
  | Done a => k a
  | Throw e => Throw e
  end.

Notation "x <-- c ;;; k" := (and_then c (fun x => k))
  (at level 61, c at next level, right associativity).

Definition of_engine {A : Type} (o : outcome A) : attempt A :=
  match o with
  | Returned a => Done a
  | Raised e => Throw (EngineError e)
  end.

(** The body of a response, next to its status code: an error message of
    the handler, [f'Invalid input: {ve}'], [str(e)], or the dictionary of
    results in the order of its keys. *)
Inductive body : Type :=
| ErrorMessage (message : string)
| InvalidInput (ve : py_error)
| ExceptionText (e : py_error)
| Result (fields : list (string * R)).

Definition response : Type := body * nat.

Fixpoint assoc (key : string) (members : list (string * json))
  : option json :=
  match members with
  | [] => None
  | (k, v) :: rest => if String.eqb key k then Some v else assoc key rest
  end.

(** [data.get(key, default)]; [data.get(key)] has the default [None]. *)
Definition dict_get (data : json) (key : string) (default : json)
  : attempt json :=
  match data with
  | JObject members =>
      Done (match assoc key members with Some v => v | None => default end)
  | _ => Throw (AttributeError data)
  end.

(** [bool(v)]. *)
Definition truthy (v : json) : bool :=
  match v with
  | JNull => false
  | JBool b => b
  | JNumber x => negb (Reqb x 0)
  | JString s => negb (String.eqb s "")
  | JArray items => match items with [] => false | _ => true end
  | JObject members => match members with [] => false | _ => true end
  end.

Definition result_fields (res : PricingResult) : list (string * R) :=
  [("optionPrice"%string, optionPrice res); ("delta"%string, delta res);
   ("gamma"%string, gamma res); ("vega"%string, vega res);
   ("theta"%string, theta res); ("rho"%string, rho res)].

Section Calculate.

(** [float(s)] on a string: the number it denotes, or [None] where Python
    raises [ValueError]. *)
Variable float_of_string : string -> option R.

(** [float(v)]. *)
Definition py_float (v : json) : attempt R :=
  match v with
  | JBool b => Done (if b then 1 else 0)
  | JNumber x => Done x
  | JString s =>
      match float_of_string s with
      | Some x => Done x
      | None => Throw (ValueError s)
      end
  | _ => Throw (TypeError v)
  end.

(** [if not v or float(v) <= 0: (complain) else: v = float(v)]: [None]
    when the branch that complains is taken. *)
Definition positive_number (v : json) : attempt (option R) :=
  if negb (truthy v) then Done None
  else
    x <-- py_float v ;;;
    if Rleb x 0 then Done None
    else x' <-- py_float v ;;; Done (Some x').

(** [if r == '' or r is None: (complain) else: r = float(r)]. *)
Definition required (v : json) : attempt (option R) :=
  match v with
  | JString EmptyString => Done None
  | JNull => Done None
  | _ => x <-- py_float v ;;; Done (Some x)
  end.

(** [option_type not in ['call', 'put']]: the style when it is in. *)
Definition style_of (v : json) : option string :=
  match v with
  | JString s =>
      if (String.eqb s "call" || String.eqb s "put")%bool then Some s
      else None
  | _ => None
  end.

(** [v == text] for a string [text]. *)
Definition equals_str (v : json) (text : string) : bool :=
  match v with
  | JString s => String.eqb s text
  | _ => false
  end.

Definition double_quote : string := String (Ascii.ascii_of_nat 34) "".

Definition option_type_message : string :=
  "Option Type must be " ++ double_quote ++ "call" ++ double_quote
  ++ " or " ++ double_quote ++ "put" ++ double_quote ++ ".".

Definition complaint {A : Type} (checked : option A) (message : string)
  : list string :=
  match checked with
  | None => [message]
  | Some _ => []
  end.

(** The messages [errors] collects, in the order of the checks. *)
Definition validation_errors (S K T r : option R)
  (option_type : option string) : list string :=
  (complaint S "Stock Price must be a positive number."
   ++ complaint K "Strike Price must be a positive number."
   ++ complaint T "Time to Maturity must be a positive number."
   ++ complaint r "Risk-Free Rate is required."
   ++ complaint option_type option_type_message)%list.

Definition bad_request (message : string) : response :=
  (ErrorMessage message, 400%nat).

Definition calculate_body (data : json) : attempt response :=
  S <-- dict_get data "stockPrice" JNull ;;;
  K <-- dict_get data "strikePrice" JNull ;;;
  T <-- dict_get data "timeToMaturity" JNull ;;;
  r <-- dict_get data "riskFreeRate" JNull ;;;
  option_type <-- dict_get data "optionType" JNull ;;;
  calc_type <-- dict_get data "calcType" (JString "optionPrice") ;;;
  S <-- positive_number S ;;;
  K <-- positive_number K ;;;
  T <-- positive_number T ;;;
  r <-- required r ;;;
  let errors := validation_errors S K T r (style_of option_type) in
  match S, K, T, r, style_of option_type with
  | Some S', Some K', Some T', Some r', Some option_type' =>
      if equals_str calc_type "optionPrice" then
        sigma <-- dict_get data "volatility" JNull ;;;
        sigma <-- positive_number sigma ;;;
        match sigma with
        | None =>
            Done (bad_request "Volatility must be a positive number.")
        | Some sigma' =>
            result <-- of_engine
                         (black_scholes S' K' T' r' sigma' option_type') ;;;
            match result with
            | None => Done (bad_request "Error in Black-Scholes calculation.")
            | Some result' => Done (Result (result_fields result'), 200%nat)
            end
        end
      else if equals_str calc_type "impliedVolatility" then
        option_price <-- dict_get data "optionPrice" JNull ;;;
        option_price <-- positive_number option_price ;;;
        match option_price with
        | None =>
            Done (bad_request "Option Price must be a positive number.")
        | Some option_price' =>
            sigma <-- of_engine
                        (implied_volatility S' K' T' r' option_price'
                           option_type') ;;;
            match sigma with
            | None =>
                Done (bad_request "Implied volatility calculation failed.")
            | Some sigma' =>
                result <-- of_engine
                             (black_scholes S' K' T' r' sigma' option_type')
                ;;;
                match result with
                | None =>
                    Done (bad_request "Error in Black-Scholes calculation.")
                | Some result' =>
                    Done (Result (result_fields result'
                                  ++ [("impliedVolatility"%string, sigma')]),
                          200%nat)
                end
            end
        end
      else Done (bad_request "Invalid calculation type.")
  | _, _, _, _, _ => Done (bad_request (String.concat " " errors))
  end.

(** The [try] around the body: [except ValueError] first, then
    [except Exception]. *)
Definition calculate (data : json) : response :=
  match calculate_body data with
  | Done answer => answer
  | Throw (ValueError text) => (InvalidInput (ValueError text), 400%nat)
  | Throw e => (ExceptionText e, 400%nat)
  end.

End Calculate.

(** ** Predicates on requests *)

(** The request has the member [key] and [float] turns it into [x]. *)
Definition field_value (float_of_string : string -> option R)
  (data : json) (key : string) (x : R) : Prop :=
  exists v : json,
    dict_get data key JNull = Done v /\ py_float float_of_string v = Done x.

(** The request passes the checks [calculate] makes before it looks at
    the kind of calculation. *)
Definition validated (float_of_string : string -> option R)
  (data : json) (S K T r : R) (option_type : string) : Prop :=
  field_value float_of_string data "stockPrice" S /\ 0 < S /\
  field_value float_of_string data "strikePrice" K /\ 0 < K /\
  field_value float_of_string data "timeToMaturity" T /\ 0 < T /\
  field_value float_of_string data "riskFreeRate" r /\
  dict_get data "optionType" JNull = Done (JString option_type) /\
  (option_type = "call"%string \/ option_type = "put"%string).

(** What a validated request is answered with, by kind of calculation. *)
Inductive answered (float_of_string : string -> option R)
  (S K T r : R) (ty : string) (data : json)
  : response -> Prop :=
| answered_no_volatility :
    answered float_of_string S K T r ty data
      (bad_request "Volatility must be a positive number.")
| answered_price (sigma : R) (res : PricingResult) :
    field_value float_of_string data "volatility" sigma ->
    0 < sigma ->
    black_scholes S K T r sigma ty = Returned (Some res) ->
    answered float_of_string S K T r ty data
      (Result (result_fields res), 200%nat)
| answered_no_price :
    answered float_of_string S K T r ty data
      (bad_request "Option Price must be a positive number.")
| answered_not_converged (p : R) :
    field_value float_of_string data "optionPrice" p ->
    0 < p ->
    implied_volatility S K T r p ty = Returned None ->
    answered float_of_string S K T r ty data
      (bad_request "Implied volatility calculation failed.")
| answered_volatility (p sigma : R) (res : PricingResult) :
    field_value float_of_string data "optionPrice" p ->
    0 < p ->
    implied_volatility S K T r p ty = Returned (Some sigma) ->
    black_scholes S K T r sigma ty = Returned (Some res) ->
    Rabs (optionPrice res - p) < PRECISION ->
    answered float_of_string S K T r ty data
      (Result (result_fields res ++ [("impliedVolatility"%string, sigma)]),
       200%nat)
| answered_unknown_kind :
    answered float_of_string S K T r ty data
      (bad_request "Invalid calculation type.").

(** ** Some requests *)

(** A pricing request that leaves the kind of calculation out. *)
Definition pricing_request : json :=
  JObject [("stockPrice"%string, JNumber 100);
           ("strikePrice"%string, JNumber 100);
           ("timeToMaturity"%string, JNumber 1);
           ("riskFreeRate"%string, JNumber 0);
           ("optionType"%string, JString "call");
           ("volatility"%string, JNumber 0.2)].

(** An implied-volatility request at the money with a zero rate. *)
Definition volatility_request : json :=
  JObject [("stockPrice"%string, JNumber 100);
           ("strikePrice"%string, JNumber 100);
           ("timeToMaturity"%string, JNumber 1);
           ("riskFreeRate"%string, JNumber 0);
           ("optionType"%string, JString "put");
           ("calcType"%string, JString "impliedVolatility");
           ("optionPrice"%string, JNumber 5)].

(** A request with no stock price and a strike that is not a number. *)
Definition broken_request : json :=
  JObject [("strikePrice"%string, JString "abc")].

(** A [float] that rejects every string. *)
Definition rejects_all : string -> option R := fun _ => None.

(** * Properties *)

(** ** Comparisons and outcomes *)

Lemma Rleb_true (x y : R) : Rleb x y = true <-> x <= y.
Proof. unfold Rleb. destruct (Rle_dec x y); split; intros; try easy. Qed.

Lemma Rleb_false (x y : R) : Rleb x y = false <-> y < x.
Proof.
  unfold Rleb. destruct (Rle_dec x y); split; intros; try easy; lra.
Qed.

Lemma Rltb_true (x y : R) : Rltb x y = true <-> x < y.
Proof. unfold Rltb. destruct (Rlt_dec x y); split; intros; try easy. Qed.

Lemma Rltb_false (x y : R) : Rltb x y = false <-> y <= x.
Proof.
  unfold Rltb. destruct (Rlt_dec x y); split; intros; try easy; lra.
Qed.

Lemma py_truediv_nonzero (x y : R) : y <> 0 -> py_truediv x y = Returned (x / y).
Proof. intro H. unfold py_truediv. destruct (Req_dec_T y 0); easy. Qed.

Lemma py_truediv_zero (x : R) : py_truediv x 0 = Raised ZeroDivisionError.
Proof. unfold py_truediv. destruct (Req_dec_T 0 0); easy. Qed.

(** ** The guard of black_scholes *)

Lemma guard_true (S K T sigma : R) :
  (Rleb T 0 || Rleb S 0 || Rleb K 0 || Rleb sigma 0)%bool = true
  <-> violated S K T sigma.
Proof.
  unfold violated.
  rewrite !Bool.orb_true_iff, !Rleb_true. tauto.
Qed.

Lemma guard_false (S K T sigma : R) :
  (Rleb T 0 || Rleb S 0 || Rleb K 0 || Rleb sigma 0)%bool = false
  <-> Spec.valid S K T sigma.
Proof.
  unfold Spec.valid.
  rewrite !Bool.orb_false_iff, !Rleb_false. tauto.
Qed.

Lemma black_scholes_violated (S K T r sigma : R) (ty : string) :
  violated S K T sigma -> black_scholes S K T r sigma ty = Returned None.
Proof.
  intro H. unfold black_scholes.
  apply guard_true in H. rewrite H. reflexivity.
Qed.

Lemma black_scholes_other_style (S K T r sigma : R) (ty : string) :
  ty <> "call"%string -> ty <> "put"%string ->
  black_scholes S K T r sigma ty = Returned None.
Proof.
  intros Hc Hp. unfold black_scholes.
  destruct (_ || _)%bool eqn:Hg; [reflexivity |].
  apply guard_false in Hg. destruct Hg as (_ & HK & _).
  rewrite py_truediv_nonzero by lra. simpl.
  apply String.eqb_neq in Hc, Hp. rewrite Hc, Hp. reflexivity.
Qed.

Lemma black_scholes_call (S K T r sigma : R) :
  Spec.valid S K T sigma ->
  black_scholes S K T r sigma "call" =
  Returned (Some {| optionPrice := Spec.call_price S K T r sigma;
                    delta := Spec.call_delta S K T r sigma;
                    gamma := Spec.gamma S K T r sigma;
                    vega := Spec.vega S K T r sigma;
                    theta := Spec.call_theta S K T r sigma;
                    rho := Spec.call_rho S K T r sigma |}).
Proof.
  intro Hv. unfold black_scholes.
  pose proof Hv as (HS & HK & HT & Hs).
  apply guard_false in Hv. rewrite Hv.
  rewrite py_truediv_nonzero by lra. simpl.
  assert (Hd : (ln (S / K) + (r + 0.5 * (sigma * (sigma * 1))) * T)
               / (sigma * sqrt T) = Spec.d1 S K T r sigma).
  { unfold Spec.d1. f_equal. simpl. lra. }
  rewrite !Hd.
  replace (- r * T) with (- (r * T)) by ring.
  do 2 f_equal.
Qed.

Lemma black_scholes_put (S K T r sigma : R) :
  Spec.valid S K T sigma ->
  black_scholes S K T r sigma "put" =
  Returned (Some {| optionPrice := Spec.put_price S K T r sigma;
                    delta := Spec.put_delta S K T r sigma;
                    gamma := Spec.gamma S K T r sigma;
                    vega := Spec.vega S K T r sigma;
                    theta := Spec.put_theta S K T r sigma;
                    rho := Spec.put_rho S K T r sigma |}).
Proof.
  intro Hv. unfold black_scholes.
  pose proof Hv as (HS & HK & HT & Hs).
  apply guard_false in Hv. rewrite Hv.
  rewrite py_truediv_nonzero by lra. simpl.
  assert (Hd : (ln (S / K) + (r + 0.5 * (sigma * (sigma * 1))) * T)
               / (sigma * sqrt T) = Spec.d1 S K T r sigma).
  { unfold Spec.d1. f_equal. simpl. lra. }
  rewrite !Hd.
  replace (- r * T) with (- (r * T)) by ring.
  do 2 f_equal.
Qed.

Lemma style_cases (ty : string) :
  ty = "call"%string \/ ty = "put"%string \/
  (ty <> "call"%string /\ ty <> "put"%string).
Proof.
  destruct (String.eqb_spec ty "call"); [tauto |].
  destruct (String.eqb_spec ty "put"); tauto.
Qed.

(** Either the input is valid with a known style, or the result is
    [None]. *)
Lemma black_scholes_invalid_cases (S K T r sigma : R) (ty : string) :
  ((0 < sigma /\ 0 < S /\ 0 < K /\ 0 < T) /\
   (ty = "call"%string \/ ty = "put"%string)) \/
  black_scholes S K T r sigma ty = Returned None.
Proof.
  destruct (Rle_lt_dec T 0) as [HT | HT];
    [right; apply black_scholes_violated; unfold violated; tauto |].
  destruct (Rle_lt_dec S 0) as [HS | HS];
    [right; apply black_scholes_violated; unfold violated; tauto |].
  destruct (Rle_lt_dec K 0) as [HK | HK];
    [right; apply black_scholes_violated; unfold violated; tauto |].
  destruct (Rle_lt_dec sigma 0) as [Hs | Hs];
    [right; apply black_scholes_violated; unfold violated; tauto |].
  destruct (style_cases ty) as [-> | [-> | [Hc Hp]]].
  - left. tauto.
  - left. tauto.
  - right. apply black_scholes_other_style; assumption.
Qed.

(** ** Price, delta and the Greeks *)

(** C1: on a valid input the result of [black_scholes] carries the
    closed-form Black-Scholes price and delta: for a call
    S*Phi(d1) - K*e^(-rT)*Phi(d2) and Phi(d1), for a put
    K*e^(-rT)*Phi(-d2) - S*Phi(-d1) and -Phi(-d1), with d1 and d2 as the
    specification defines them. *)
Theorem black_scholes_price_and_delta (S K T r sigma : R) (ty : string) :
  0 < S -> 0 < K -> 0 < T -> 0 < sigma ->
  ty = "call"%string \/ ty = "put"%string ->
  exists res : PricingResult,
    black_scholes S K T r sigma ty = Returned (Some res) /\
    (ty = "call"%string ->
       optionPrice res
       = S * Spec.Phi (Spec.d1 S K T r sigma)
         - K * exp (- (r * T)) * Spec.Phi (Spec.d2 S K T r sigma) /\
       delta res = Spec.Phi (Spec.d1 S K T r sigma)) /\
    (ty = "put"%string ->
       optionPrice res
       = K * exp (- (r * T)) * Spec.Phi (- Spec.d2 S K T r sigma)
         - S * Spec.Phi (- Spec.d1 S K T r sigma) /\
       delta res = - Spec.Phi (- Spec.d1 S K T r sigma)).
Proof.
  intros HS HK HT Hs [-> | ->].
  - eexists. split; [apply black_scholes_call; repeat split; assumption |].
    split; [intros _; split; reflexivity | discriminate].
  - eexists. split; [apply black_scholes_put; repeat split; assumption |].
    split; [discriminate | intros _; split; reflexivity].
Qed.

Lemma black_scholes_price_and_delta_witness :
  exists res : PricingResult,
    black_scholes 100 100 1 0.05 0.2 "call" = Returned (Some res) /\
    ("call"%string = "call"%string ->
       optionPrice res
       = 100 * Spec.Phi (Spec.d1 100 100 1 0.05 0.2)
         - 100 * exp (- (0.05 * 1)) * Spec.Phi (Spec.d2 100 100 1 0.05 0.2) /\
       delta res = Spec.Phi (Spec.d1 100 100 1 0.05 0.2)) /\
    ("call"%string = "put"%string ->
       optionPrice res
       = 100 * exp (- (0.05 * 1)) * Spec.Phi (- Spec.d2 100 100 1 0.05 0.2)
         - 100 * Spec.Phi (- Spec.d1 100 100 1 0.05 0.2) /\
       delta res = - Spec.Phi (- Spec.d1 100 100 1 0.05 0.2)).
Proof.
  apply (black_scholes_price_and_delta 100 100 1 0.05 0.2 "call");
    [lra | lra | lra | lra | left; reflexivity].
Defined.

(** C4: on a valid input the Greeks of the result are
    gamma = phi(d1)/(S*sigma*sqrt T), vega = S*phi(d1)*sqrt T/100,
    theta = (-S*phi(d1)*sigma/(2 sqrt T) - r*K*e^(-rT)*Phi(d2 for a call,
    -d2 for a put))/365 and rho = K*T*e^(-rT)*(Phi(d2) for a call,
    -Phi(-d2) for a put)/100. *)
Theorem black_scholes_greeks (S K T r sigma : R) (ty : string) :
  0 < S -> 0 < K -> 0 < T -> 0 < sigma ->
  ty = "call"%string \/ ty = "put"%string ->
  exists res : PricingResult,
    black_scholes S K T r sigma ty = Returned (Some res) /\
    gamma res
    = Spec.phi (Spec.d1 S K T r sigma) / (S * sigma * sqrt T) /\
    vega res = S * Spec.phi (Spec.d1 S K T r sigma) * sqrt T / 100 /\
    theta res
    = (- S * Spec.phi (Spec.d1 S K T r sigma) * sigma / (2 * sqrt T)
       - r * K * exp (- (r * T))
         * Spec.Phi (if String.eqb ty "call" then Spec.d2 S K T r sigma
                     else - Spec.d2 S K T r sigma)) / 365 /\
    rho res
    = K * T * exp (- (r * T))
      * (if String.eqb ty "call" then Spec.Phi (Spec.d2 S K T r sigma)
         else - Spec.Phi (- Spec.d2 S K T r sigma)) / 100.
Proof.
  intros HS HK HT Hs [-> | ->].
  - eexists. split; [apply black_scholes_call; repeat split; assumption |].
    repeat split.
  - eexists. split; [apply black_scholes_put; repeat split; assumption |].
    repeat split.
Qed.

Lemma black_scholes_greeks_witness :
  exists res : PricingResult,
    black_scholes 100 100 1 0.05 0.2 "put" = Returned (Some res) /\
    gamma res
    = Spec.phi (Spec.d1 100 100 1 0.05 0.2) / (100 * 0.2 * sqrt 1) /\
    vega res = 100 * Spec.phi (Spec.d1 100 100 1 0.05 0.2) * sqrt 1 / 100 /\
    theta res
    = (- 100 * Spec.phi (Spec.d1 100 100 1 0.05 0.2) * 0.2 / (2 * sqrt 1)
       - 0.05 * 100 * exp (- (0.05 * 1))
         * Spec.Phi (if String.eqb "put" "call"
                     then Spec.d2 100 100 1 0.05 0.2
                     else - Spec.d2 100 100 1 0.05 0.2)) / 365 /\
    rho res
    = 100 * 1 * exp (- (0.05 * 1))
      * (if String.eqb "put" "call"
         then Spec.Phi (Spec.d2 100 100 1 0.05 0.2)
         else - Spec.Phi (- Spec.d2 100 100 1 0.05 0.2)) / 100.
Proof.
  apply (black_scholes_greeks 100 100 1 0.05 0.2 "put");
    [lra | lra | lra | lra | right; reflexivity].
Defined.

(** ** Invalid inputs *)


Example black_scholes_straddle :
  black_scholes 100 100 1 0.05 0.2 "straddle" = Returned None.
Proof. apply black_scholes_other_style; discriminate. Qed.

Example black_scholes_zero_volatility :
  black_scholes 100 100 1 0.05 0 "call" = Returned None.
Proof. apply black_scholes_violated. unfold violated. lra. Qed.

(** ** The normal law *)

Lemma sqrt_2PI_pos : 0 < sqrt (2 * PI).
Proof. apply sqrt_lt_R0. pose proof PI_RGT_0. lra. Qed.

Lemma pdf_pos (x : R) : 0 < Normal.pdf x.
Proof.
  unfold Normal.pdf. apply Rdiv_lt_0_compat; [apply exp_pos | apply sqrt_2PI_pos].
Qed.

Lemma pdf_even (x : R) : Normal.pdf (- x) = Normal.pdf x.
Proof.
  unfold Normal.pdf. replace ((- x) ^ 2) with (x ^ 2) by ring. reflexivity.
Qed.

Lemma derivable_pt_lim_locally_eq (f g : R -> R) (x l d : R) :
  0 < d ->
  (forall y, Rabs (y - x) < d -> f y = g y) ->
  derivable_pt_lim g x l -> derivable_pt_lim f x l.
Proof.
  intros Hd Heq Hg eps Heps.
  destruct (Hg eps Heps) as [dg Hdg].
  assert (Hm : 0 < Rmin dg d) by (apply Rmin_pos; [apply cond_pos | exact Hd]).
  exists (mkposreal _ Hm). intros h Hh Hlt. simpl in Hlt.
  rewrite (Heq (x + h)), (Heq x).
  - apply Hdg; [exact Hh |].
    eapply Rlt_le_trans; [exact Hlt | apply Rmin_l].
  - replace (x - x) with 0 by ring. rewrite Rabs_R0. exact Hd.
  - replace (x + h - x) with h by ring.
    eapply Rlt_le_trans; [exact Hlt | apply Rmin_r].
Qed.

Lemma cdf_chasles (a y : R) :
  Normal.cdf y
  = RiemannInt (Normal.pdf_integrable a y)
    + (1 / 2 - RiemannInt (Normal.pdf_integrable a 0)).
Proof.
  unfold Normal.cdf.
  rewrite <- (RiemannInt_P26 (Normal.pdf_integrable a 0)
                (Normal.pdf_integrable 0 y) (Normal.pdf_integrable a y)).
  ring.
Qed.

Lemma cdf_derivable_pt_lim (x : R) :
  derivable_pt_lim Normal.cdf x (Normal.pdf x).
Proof.
  set (a := x - 1). set (b := x + 1).
  assert (h : a <= b) by (unfold a, b; lra).
  assert (C0 : forall y : R, a <= y <= b -> continuity_pt Normal.pdf y)
    by (intros y _; apply Normal.pdf_continuity).
  set (F := primitive h (FTC_P1 h C0)).
  assert (HF : derivable_pt_lim F x (Normal.pdf x)).
  { apply RiemannInt_P28. unfold a, b; lra. }
  set (c := 1 / 2 - RiemannInt (Normal.pdf_integrable a 0)).
  apply (derivable_pt_lim_locally_eq _ (fun y => F y + c) x _ 1);
    [lra | |].
  - intros y Hy.
    assert (Hay : a <= y <= b).
    { unfold a, b. apply Rabs_def2 in Hy. lra. }
    rewrite (cdf_chasles a y). fold c. f_equal.
    unfold F, primitive.
    destruct (Rle_dec a y) as [H1 | H1]; [| lra].
    destruct (Rle_dec y b) as [H2 | H2]; [| lra].
    apply RiemannInt_P5.
  - replace (Normal.pdf x) with (Normal.pdf x + 0) by ring.
    apply (derivable_pt_lim_plus F (fun _ => c)).
    + exact HF.
    + apply derivable_pt_lim_const.
Qed.

Lemma cdf_0 : Normal.cdf 0 = 1 / 2.
Proof. unfold Normal.cdf. rewrite RiemannInt_P9. ring. Qed.

Lemma cdf_increasing (x y : R) : x < y -> Normal.cdf x < Normal.cdf y.
Proof.
  intro Hxy.
  destruct (MVT_cor2 Normal.cdf Normal.pdf x y Hxy) as (c & Hc & _).
  - intros z _. apply cdf_derivable_pt_lim.
  - pose proof (pdf_pos c) as Hp.
    assert (0 < Normal.pdf c * (y - x)) by (apply Rmult_lt_0_compat; lra).
    lra.
Qed.

Lemma cdf_opp (x : R) : Normal.cdf (- x) = 1 - Normal.cdf x.
Proof.
  set (g := fun y : R => Normal.cdf y + Normal.cdf (- y)).
  assert (Hg : forall y, derivable_pt_lim g y ((fun _ => 0) y)).
  { intro y. unfold g.
    replace 0 with (Normal.pdf y + Normal.pdf (- y) * (-1))
      by (rewrite pdf_even; ring).
    apply derivable_pt_lim_plus; [apply cdf_derivable_pt_lim |].
    apply (derivable_pt_lim_comp (fun z => - z) Normal.cdf).
    - replace (-1) with (- 1) by ring.
      apply (derivable_pt_lim_opp id). apply derivable_pt_lim_id.
    - apply cdf_derivable_pt_lim. }
  assert (Hc : forall y, g y = g 0).
  { intro y.
    destruct (Rtotal_order 0 y) as [Hy | [<- | Hy]]; [| reflexivity |].
    - destruct (MVT_cor2 g (fun _ => 0) 0 y Hy) as (c & Hc & _);
        [intros; apply Hg | lra].
    - destruct (MVT_cor2 g (fun _ => 0) y 0 Hy) as (c & Hc & _);
        [intros; apply Hg | lra]. }
  specialize (Hc x). unfold g in Hc.
  rewrite Ropp_0, cdf_0 in Hc. lra.
Qed.

(** ** Sensitivity of the price to the volatility *)

Section Sensitivity.

Variables (S K T r : R).
Hypotheses (HS : 0 < S) (HK : 0 < K) (HT : 0 < T).

Let q := sqrt T.

Lemma sqrt_T_pos : 0 < q.
Proof. apply sqrt_lt_R0. exact HT. Qed.

Lemma sqrt_T_sqr : q * q = T.
Proof. apply sqrt_sqrt. lra. Qed.

Lemma d1_derivable_pt_lim (sigma : R) :
  0 < sigma ->
  derivable_pt_lim (Spec.d1 S K T r) sigma (- Spec.d2 S K T r sigma / sigma).
Proof.
  intro Hs.
  pose proof sqrt_T_pos as Hq. pose proof sqrt_T_sqr as Hqq.
  set (num := fun s : R => ln (S / K) + (r + s ^ 2 / 2) * T).
  set (den := fun s : R => s * q).
  assert (Hnum : derivable_pt_lim num sigma (sigma * T)).
  { unfold num.
    replace (sigma * T) with (0 + (0 + (INR 2 * sigma ^ Nat.pred 2) / 2) * T)
      by (simpl; field).
    apply (derivable_pt_lim_plus (fun _ => ln (S / K))
             (fun s => (r + s ^ 2 / 2) * T));
      [apply derivable_pt_lim_const |].
    apply (derivable_pt_lim_scal_right (fun s => r + s ^ 2 / 2)).
    apply (derivable_pt_lim_plus (fun _ => r) (fun s => s ^ 2 / 2));
      [apply derivable_pt_lim_const |].
    apply (derivable_pt_lim_div_scal (fun s => s ^ 2)).
    apply derivable_pt_lim_pow. }
  assert (Hden : derivable_pt_lim den sigma q).
  { pose proof (derivable_pt_lim_scal_right id sigma 1 q
                  (derivable_pt_lim_id sigma)) as H.
    rewrite Rmult_1_l in H. exact H. }
  assert (Hnz : den sigma <> 0).
  { unfold den. apply Rgt_not_eq. apply Rmult_lt_0_compat; assumption. }
  pose proof (derivable_pt_lim_div num den sigma _ _ Hnum Hden Hnz) as Hd.
  replace (- Spec.d2 S K T r sigma / sigma)
    with ((sigma * T * den sigma - q * num sigma) / (den sigma)²).
  - exact Hd.
  - unfold Spec.d2, Spec.d1, den, num, Rsqr. fold q.
    rewrite <- Hqq. field. lra.
Qed.

Lemma d2_derivable_pt_lim (sigma : R) :
  0 < sigma ->
  derivable_pt_lim (Spec.d2 S K T r) sigma (- Spec.d1 S K T r sigma / sigma).
Proof.
  intro Hs.
  pose proof sqrt_T_pos as Hq.
  replace (- Spec.d1 S K T r sigma / sigma)
    with (- Spec.d2 S K T r sigma / sigma - 1 * q)
    by (unfold Spec.d2; fold q; field; lra).
  apply (derivable_pt_lim_minus (Spec.d1 S K T r) (fun s => s * q)).
  - apply d1_derivable_pt_lim. exact Hs.
  - exact (derivable_pt_lim_scal_right id sigma 1 q
             (derivable_pt_lim_id sigma)).
Qed.

(** The discounted strike weighs the density at d2 as the spot weighs it
    at d1. *)
Lemma strike_density (sigma : R) :
  0 < sigma ->
  K * exp (- (r * T)) * Spec.phi (Spec.d2 S K T r sigma)
  = S * Spec.phi (Spec.d1 S K T r sigma).
Proof.
  intro Hs.
  pose proof sqrt_T_pos as Hq. pose proof sqrt_T_sqr as Hqq.
  pose proof sqrt_2PI_pos as Hpi.
  unfold Spec.phi, Normal.pdf.
  assert (He : - Spec.d2 S K T r sigma ^ 2 / 2
               = - Spec.d1 S K T r sigma ^ 2 / 2 + (ln (S / K) + r * T)).
  { unfold Spec.d2, Spec.d1. fold q. rewrite <- Hqq. field. lra. }
  rewrite He, !exp_plus, exp_Ropp.
  rewrite exp_ln by (apply Rdiv_lt_0_compat; assumption).
  pose proof (exp_pos (r * T)) as Hexp.
  field. lra.
Qed.

Lemma call_price_derivable_pt_lim (sigma : R) :
  0 < sigma ->
  derivable_pt_lim (Spec.call_price S K T r) sigma
    (S * Spec.phi (Spec.d1 S K T r sigma) * sqrt T).
Proof.
  intro Hs. fold q.
  pose proof (d1_derivable_pt_lim sigma Hs) as H1.
  pose proof (d2_derivable_pt_lim sigma Hs) as H2.
  pose proof (derivable_pt_lim_comp _ Normal.cdf sigma _ _ H1
                (cdf_derivable_pt_lim _)) as C1.
  pose proof (derivable_pt_lim_comp _ Normal.cdf sigma _ _ H2
                (cdf_derivable_pt_lim _)) as C2.
  pose proof (derivable_pt_lim_scal _ S sigma _ C1) as D1.
  pose proof (derivable_pt_lim_scal _ (K * exp (- (r * T))) sigma _ C2) as D2.
  pose proof (derivable_pt_lim_minus _ _ sigma _ _ D1 D2) as D.
  replace (S * Spec.phi (Spec.d1 S K T r sigma) * q)
    with (S * (Normal.pdf (Spec.d1 S K T r sigma)
               * (- Spec.d2 S K T r sigma / sigma))
          - K * exp (- (r * T))
            * (Normal.pdf (Spec.d2 S K T r sigma)
               * (- Spec.d1 S K T r sigma / sigma))).
  - exact D.
  - pose proof (strike_density sigma Hs) as Hid.
    unfold Spec.phi in Hid |- *.
    transitivity
      (S * Normal.pdf (Spec.d1 S K T r sigma)
         * (- Spec.d2 S K T r sigma / sigma)
       - K * exp (- (r * T)) * Normal.pdf (Spec.d2 S K T r sigma)
         * (- Spec.d1 S K T r sigma / sigma)); [ring |].
    rewrite Hid. unfold Spec.d2. fold q. field. lra.
Qed.


End Sensitivity.

Lemma put_call_parity (S K T r sigma : R) :
  Spec.call_price S K T r sigma - Spec.put_price S K T r sigma
  = S - K * exp (- (r * T)).
Proof.
  unfold Spec.call_price, Spec.put_price, Spec.Phi.
  rewrite !cdf_opp. ring.
Qed.


(** C6: put-call parity.  For one valid (S, K, T, r, sigma) the call price
    minus the put price returned by [black_scholes] is S - K*e^(-rT); the
    two sides differ by less than 1e-6 (in exact arithmetic, by nothing). *)
Theorem black_scholes_put_call_parity (S K T r sigma : R) :
  0 < S -> 0 < K -> 0 < T -> 0 < sigma ->
  exists c p : PricingResult,
    black_scholes S K T r sigma "call" = Returned (Some c) /\
    black_scholes S K T r sigma "put" = Returned (Some p) /\
    Rabs (optionPrice c - optionPrice p - (S - K * exp (- (r * T)))) < 1e-6.
Proof.
  intros HS HK HT Hs.
  assert (Hv : Spec.valid S K T sigma) by (repeat split; assumption).
  do 2 eexists.
  split; [apply black_scholes_call; exact Hv |].
  split; [apply black_scholes_put; exact Hv |].
  simpl. rewrite put_call_parity.
  replace (S - K * exp (- (r * T)) - (S - K * exp (- (r * T)))) with 0 by ring.
  rewrite Rabs_R0. lra.
Qed.

Lemma black_scholes_put_call_parity_witness :
  exists c p : PricingResult,
    black_scholes 100 100 1 0.05 0.2 "call" = Returned (Some c) /\
    black_scholes 100 100 1 0.05 0.2 "put" = Returned (Some p) /\
    Rabs (optionPrice c - optionPrice p - (100 - 100 * exp (- (0.05 * 1))))
    < 1e-6.
Proof.
  apply (black_scholes_put_call_parity 100 100 1 0.05 0.2); lra.
Defined.



(** ** Loops *)

Lemma for_range_succ {St : Type} (n : nat)
  (body : St -> outcome (control St)) (s : St) :
  for_range (Datatypes.S n) body s =
  (c <- body s ;;
   match c with
   | Return v => Returned (Returns v)
   | Break => Returned Falls_through
   | Continue s' => for_range n body s'
   end).
Proof. reflexivity. Qed.

(** A loop that returns [v] does so from a run of its body, started in a
    state that satisfies every invariant of the loop. *)
Lemma for_range_returns_inv {St : Type} (I : St -> Prop)
  (body : St -> outcome (control St)) :
  (forall s s', I s -> body s = Returned (Continue s') -> I s') ->
  forall (n : nat) (s : St) (v : option R),
    I s ->
    for_range n body s = Returned (Returns v) ->
    exists s', I s' /\ body s' = Returned (Return v).
Proof.
  intros Hstep n. induction n as [| n IH]; intros s v Hs Hrun.
  - discriminate.
  - rewrite for_range_succ in Hrun.
    destruct (body s) as [[w | | s'] | e] eqn:Hb; simpl in Hrun.
    + injection Hrun as ->. exists s. split; assumption.
    + discriminate.
    + apply (IH s' v); [eapply Hstep; eassumption | exact Hrun].
    + discriminate.
Qed.

Lemma for_range_first_return {St : Type} (n : nat)
  (body : St -> outcome (control St)) (s : St) (v : option R) :
  body s = Returned (Return v) ->
  for_range (Datatypes.S n) body s = Returned (Returns v).
Proof. intro H. rewrite for_range_succ, H. reflexivity. Qed.

(** ** The solver *)

Section Solver.

Variables (S K T r option_price : R) (option_type : string).

Local Abbreviation newton := (newton_body S K T r option_price option_type).
Local Abbreviation bisection := (bisection_body S K T r option_price option_type).
Local Abbreviation converged := (converged S K T r option_price option_type).

Lemma newton_body_returns (sigma x : R) :
  newton sigma = Returned (Return (Some x)) <-> x = sigma /\ converged sigma.
Proof.
  unfold newton_body, converged.
  destruct (black_scholes S K T r sigma option_type) as [[res |] | e];
    simpl.
  - destruct (Rltb _ PRECISION) eqn:Hc.
    + apply Rltb_true in Hc. split.
      * intro H. injection H as <-. split; [reflexivity |].
        exists res. split; [reflexivity | exact Hc].
      * intros [-> _]. reflexivity.
    + apply Rltb_false in Hc. split.
      * destruct (Reqb _ 0); discriminate.
      * intros [_ (res' & Heq & Hlt)]. injection Heq as <-. lra.
  - split; [discriminate | intros [_ (res & Heq & _)]; discriminate].
  - split; [discriminate | intros [_ (res & Heq & _)]; discriminate].
Qed.

Lemma newton_body_invalid (sigma : R) :
  black_scholes S K T r sigma option_type = Returned None ->
  newton sigma = Returned (Return None).
Proof. intro H. unfold newton_body. rewrite H. reflexivity. Qed.

Lemma bisection_body_returns (lo hi x : R) :
  bisection (lo, hi) = Returned (Return (Some x)) <->
  x = (lo + hi) / 2 /\ converged ((lo + hi) / 2).
Proof.
  unfold bisection_body, converged.
  destruct (black_scholes S K T r ((lo + hi) / 2) option_type)
    as [[res |] | e]; simpl.
  - destruct (Rltb _ PRECISION) eqn:Hc.
    + apply Rltb_true in Hc. split.
      * intro H. injection H as <-. split; [reflexivity |].
        exists res. split; [reflexivity | exact Hc].
      * intros [-> _]. reflexivity.
    + apply Rltb_false in Hc. split.
      * destruct (Rltb 0 _); discriminate.
      * intros [_ (res' & Heq & Hlt)]. injection Heq as <-. lra.
  - split; [discriminate | intros [_ (res & Heq & _)]; discriminate].
  - split; [discriminate | intros [_ (res & Heq & _)]; discriminate].
Qed.

Lemma bisection_body_continues (lo hi lo' hi' : R) :
  bisection (lo, hi) = Returned (Continue (lo', hi')) ->
  (lo' = lo /\ hi' = (lo + hi) / 2) \/ (lo' = (lo + hi) / 2 /\ hi' = hi).
Proof.
  unfold bisection_body.
  destruct (black_scholes S K T r ((lo + hi) / 2) option_type)
    as [[res |] | e]; simpl; try discriminate.
  destruct (Rltb _ PRECISION); [discriminate |].
  destruct (Rltb 0 _); intro H; injection H as <- <-; tauto.
Qed.

(** Whatever the solver returns as a volatility passed the convergence
    test of one of the two loops. *)
Lemma implied_volatility_returns (sigma : R) :
  implied_volatility S K T r option_price option_type
  = Returned (Some sigma) ->
  converged sigma.
Proof.
  unfold implied_volatility. intro H.
  destruct (manaster_koehler_initial_guess _ _ _ _ _ _) as [g | e];
    [cbn [bind] in H | discriminate].
  destruct (for_range MAX_ITERATIONS newton g) as [[v |] | e] eqn:HN;
    cbn [bind] in H; [| | discriminate].
  - injection H as ->.
    destruct (for_range_returns_inv (fun _ => True) newton
                (fun _ _ _ _ => I) _ _ _ I HN) as (s & _ & Hs).
    apply newton_body_returns in Hs. destruct Hs as [-> Hs]. exact Hs.
  - destruct (for_range MAX_ITERATIONS bisection (sigma_low0, sigma_high0))
      as [[v |] | e] eqn:HB; cbn [bind] in H; try discriminate.
    injection H as ->.
    destruct (for_range_returns_inv (fun _ => True) bisection
                (fun _ _ _ _ => I) _ _ _ I HB) as ([lo hi] & _ & Hs).
    apply bisection_body_returns in Hs. destruct Hs as [-> Hs]. exact Hs.
Qed.

(** The solver returns its first guess when the guess already prices the
    option within the tolerance. *)
Lemma implied_volatility_first_guess (g : R) :
  manaster_koehler_initial_guess S K T r option_price option_type
  = Returned g ->
  converged g ->
  implied_volatility S K T r option_price option_type = Returned (Some g).
Proof.
  intros Hg Hc. unfold implied_volatility. rewrite Hg. cbn [bind].
  unfold MAX_ITERATIONS.
  rewrite (for_range_first_return _ _ _ (Some g)); [reflexivity |].
  apply newton_body_returns. split; [reflexivity | exact Hc].
Qed.

End Solver.

(** ** A run of the solver that converges at once

    S = K = 100, T = 1, r = 0.02 and the market price of a call at the
    volatility 0.2: the first guess is 0.2 itself. *)

Lemma example_d1 : Spec.d1 100 100 1 0.02 0.2 = 0.2.
Proof.
  unfold Spec.d1. replace (100 / 100) with 1 by field.
  rewrite ln_1, sqrt_1. simpl. lra.
Qed.

Lemma example_d2 : Spec.d2 100 100 1 0.02 0.2 = 0.
Proof. unfold Spec.d2. rewrite example_d1, sqrt_1. ring. Qed.

Lemma example_price_pos : 0 < Spec.call_price 100 100 1 0.02 0.2.
Proof.
  unfold Spec.call_price, Spec.Phi. rewrite example_d1, example_d2, cdf_0.
  assert (H1 : Normal.cdf 0 < Normal.cdf 0.2)
    by (apply cdf_increasing; lra).
  assert (H2 : exp (- (0.02 * 1)) < exp 0)
    by (apply exp_increasing; lra).
  rewrite cdf_0 in H1. rewrite exp_0 in H2. lra.
Qed.

Lemma example_guess :
  manaster_koehler_initial_guess 100 100 1 0.02
    (Spec.call_price 100 100 1 0.02 0.2) "call" = Returned 0.2.
Proof.
  unfold manaster_koehler_initial_guess. cbn [String.eqb Ascii.eqb Bool.eqb].
  replace (100 - 100) with 0 by ring.
  rewrite Rmax_left by lra.
  pose proof example_price_pos as Hp.
  assert (Ht : Rleb (Spec.call_price 100 100 1 0.02 0.2 - 0) 0 = false)
    by (apply Rleb_false; lra).
  rewrite Ht, py_truediv_nonzero by lra. cbn [bind].
  f_equal. replace (100 / 100) with 1 by field. rewrite ln_1.
  replace ((0 + 0.02 * 1) / 1) with 0.02 by field.
  rewrite Rabs_pos_eq by lra.
  apply sqrt_lem_1; lra.
Qed.

Lemma example_converged :
  converged 100 100 1 0.02 (Spec.call_price 100 100 1 0.02 0.2) "call" 0.2.
Proof.
  eexists. split.
  - apply black_scholes_call. unfold Spec.valid. lra.
  - cbn [optionPrice].
    replace (Spec.call_price 100 100 1 0.02 0.2
             - Spec.call_price 100 100 1 0.02 0.2) with 0 by ring.
    rewrite Rabs_R0. unfold PRECISION. lra.
Qed.

Lemma example_run :
  implied_volatility 100 100 1 0.02
    (Spec.call_price 100 100 1 0.02 0.2) "call" = Returned (Some 0.2).
Proof.
  apply implied_volatility_first_guess;
    [exact example_guess | exact example_converged].
Qed.

(** ** Inputs outside the domain

    On a non-positive S, K or T the guess of Manaster and Koehler is
    computed from a logarithm or a quotient that numpy leaves undefined.
    Its value is never used: every pricing call is invalid before sigma is
    looked at, so the solver returns [None], unless the division S / K by
    K = 0 has raised. *)

Lemma manaster_koehler_degenerate
  (S K T r option_price : R) (option_type : string) :
  option_price
  - (if String.eqb option_type "call" then Rmax 0 (S - K)
     else Rmax 0 (K - S)) <= 0 ->
  manaster_koehler_initial_guess S K T r option_price option_type
  = Returned 0.0001.
Proof.
  intro H. unfold manaster_koehler_initial_guess.
  apply Rleb_true in H. rewrite H. reflexivity.
Qed.

Lemma implied_volatility_invalid_input
  (S K T r option_price : R) (option_type : string) :
  T <= 0 \/ S <= 0 \/ K <= 0 ->
  implied_volatility S K T r option_price option_type = Returned None \/
  (K = 0 /\
   implied_volatility S K T r option_price option_type
   = Raised ZeroDivisionError).
Proof.
  intro Hbad. unfold implied_volatility.
  assert (Hnone : forall g,
             for_range MAX_ITERATIONS
               (newton_body S K T r option_price option_type) g
             = Returned (Returns None)).
  { intro g. apply for_range_first_return, newton_body_invalid.
    apply black_scholes_violated. unfold violated. tauto. }
  unfold manaster_koehler_initial_guess.
  destruct (Rleb _ 0).
  - left. cbn [bind]. rewrite Hnone. reflexivity.
  - destruct (Req_dec_T K 0) as [-> | HK].
    + right. rewrite py_truediv_zero. split; reflexivity.
    + left. rewrite py_truediv_nonzero by exact HK. cbn [bind].
      rewrite Hnone. reflexivity.
Qed.

(** ** What a returned volatility satisfies *)

(** C2: whenever [implied_volatility] returns a volatility, the price
    that [black_scholes] computes at that volatility differs from the
    market price by strictly less than 1e-5. *)
Theorem implied_volatility_within_tolerance
  (S K T r marketPrice : R) (style : string) (sigma : R) :
  implied_volatility S K T r marketPrice style = Returned (Some sigma) ->
  exists res : PricingResult,
    black_scholes S K T r sigma style = Returned (Some res) /\
    Rabs (optionPrice res - marketPrice) < 1e-5.
Proof.
  intro H. apply implied_volatility_returns in H.
  destruct H as (res & Hres & Hlt).
  exists res. split; [exact Hres |]. unfold PRECISION in Hlt. lra.
Qed.

Lemma implied_volatility_within_tolerance_witness :
  implied_volatility 100 100 1 0.02
    (Spec.call_price 100 100 1 0.02 0.2) "call" = Returned (Some 0.2) /\
  exists res : PricingResult,
    black_scholes 100 100 1 0.02 0.2 "call" = Returned (Some res) /\
    Rabs (optionPrice res - Spec.call_price 100 100 1 0.02 0.2) < 1e-5.
Proof.
  split; [exact example_run |].
  apply (implied_volatility_within_tolerance 100 100 1 0.02
           (Spec.call_price 100 100 1 0.02 0.2) "call" 0.2).
  exact example_run.
Defined.

(** C8: a volatility that [implied_volatility] returns is strictly
    positive, whatever the input; in particular when the market price is
    at or below the intrinsic value and the search starts from 0.0001. *)
Theorem implied_volatility_positive
  (S K T r marketPrice : R) (style : string) (sigma : R) :
  implied_volatility S K T r marketPrice style = Returned (Some sigma) ->
  0 < sigma.
Proof.
  intro H. apply implied_volatility_returns in H.
  destruct H as (res & Hres & _).
  destruct (black_scholes_invalid_cases S K T r sigma style)
    as [[Hv _] | Hnone].
  - apply Hv.
  - rewrite Hnone in Hres. discriminate.
Qed.

Lemma implied_volatility_positive_witness :
  implied_volatility 100 100 1 0.02
    (Spec.call_price 100 100 1 0.02 0.2) "call" = Returned (Some 0.2) /\
  0 < 0.2.
Proof.
  split; [exact example_run |].
  apply (implied_volatility_positive 100 100 1 0.02
           (Spec.call_price 100 100 1 0.02 0.2) "call" 0.2).
  exact example_run.
Defined.

(** ** A first guess of zero *)

Lemma manaster_koehler_zero
  (S K T r marketPrice : R) (style : string) :
  K <> 0 ->
  0 < marketPrice
      - (if String.eqb style "call" then Rmax 0 (S - K) else Rmax 0 (K - S)) ->
  ln (S / K) + r * T = 0 ->
  manaster_koehler_initial_guess S K T r marketPrice style = Returned 0.
Proof.
  intros HK Htv Hln. unfold manaster_koehler_initial_guess.
  apply Rleb_false in Htv.
  rewrite Htv, py_truediv_nonzero by exact HK. cbn [bind].
  rewrite Hln. unfold Rdiv. rewrite Rmult_0_l, Rabs_R0, Rmult_0_r.
  rewrite sqrt_0. reflexivity.
Qed.

(** A first guess that [black_scholes] rejects ends the search. *)
Lemma implied_volatility_invalid_guess
  (S K T r marketPrice : R) (style : string) (g : R) :
  manaster_koehler_initial_guess S K T r marketPrice style = Returned g ->
  black_scholes S K T r g style = Returned None ->
  for_range MAX_ITERATIONS (newton_body S K T r marketPrice style) g
  = Returned (Returns None) /\
  implied_volatility S K T r marketPrice style = Returned None.
Proof.
  intros Hg Hb.
  assert (Hl : for_range MAX_ITERATIONS (newton_body S K T r marketPrice style)
                 g = Returned (Returns None))
    by (apply for_range_first_return, newton_body_invalid; exact Hb).
  split; [exact Hl |].
  unfold implied_volatility. rewrite Hg. cbn [bind]. rewrite Hl. reflexivity.
Qed.

(** C9: when S, K, T are positive, the time value is strictly positive
    and ln(S/K) + r*T = 0, the Manaster-Koehler guess is exactly 0; the
    first pricing call of the Newton loop is invalid, the first run of
    the loop body returns [None] (no update of sigma, no fall through to
    the bisection loop), and so does [implied_volatility]. *)
Theorem zero_guess_not_converged
  (S K T r marketPrice : R) (style : string) :
  0 < S -> 0 < K -> 0 < T ->
  0 < marketPrice
      - (if String.eqb style "call" then Rmax 0 (S - K) else Rmax 0 (K - S)) ->
  ln (S / K) + r * T = 0 ->
  manaster_koehler_initial_guess S K T r marketPrice style = Returned 0 /\
  black_scholes S K T r 0 style = Returned None /\
  newton_body S K T r marketPrice style 0 = Returned (Return None) /\
  for_range MAX_ITERATIONS (newton_body S K T r marketPrice style) 0
  = Returned (Returns None) /\
  implied_volatility S K T r marketPrice style = Returned None.
Proof.
  intros HS HK HT Htv Hln.
  assert (Hg : manaster_koehler_initial_guess S K T r marketPrice style
               = Returned 0)
    by (apply manaster_koehler_zero; [lra | exact Htv | exact Hln]).
  assert (Hb : black_scholes S K T r 0 style = Returned None)
    by (apply black_scholes_violated; unfold violated; lra).
  split; [exact Hg |]. split; [exact Hb |].
  split; [apply newton_body_invalid; exact Hb |].
  apply implied_volatility_invalid_guess; assumption.
Qed.

Lemma zero_guess_not_converged_witness :
  manaster_koehler_initial_guess 100 100 1 0 5 "call" = Returned 0 /\
  black_scholes 100 100 1 0 0 "call" = Returned None /\
  newton_body 100 100 1 0 5 "call" 0 = Returned (Return None) /\
  for_range MAX_ITERATIONS (newton_body 100 100 1 0 5 "call") 0
  = Returned (Returns None) /\
  implied_volatility 100 100 1 0 5 "call" = Returned None.
Proof.
  apply (zero_guess_not_converged 100 100 1 0 5 "call"); try lra.
  - cbn [String.eqb Ascii.eqb Bool.eqb].
    replace (100 - 100) with 0 by ring. rewrite Rmax_left; lra.
  - replace (100 / 100) with 1 by field. rewrite ln_1. ring.
Defined.

(** ** The bisection loop *)

Lemma bisection_bracket (S K T r p : R) (ty : string) (i : nat) (lo hi : R) :
  bisection_reaches S K T r p ty i (lo, hi) ->
  sigma_low0 <= lo /\ lo < hi /\ hi <= sigma_high0.
Proof.
  intro H. remember (lo, hi) as b eqn:Hb. revert lo hi Hb.
  induction H as [| i [lo0 hi0] [lo1 hi1] H IH Hstep]; intros lo hi Hb.
  - injection Hb as <- <-. unfold sigma_low0, sigma_high0. lra.
  - injection Hb as <- <-.
    specialize (IH lo0 hi0 eq_refl).
    apply bisection_body_continues in Hstep.
    destruct Hstep as [[-> ->] | [-> ->]]; lra.
Qed.

(** C10: with S, K, T positive and a style among "call" and "put", every
    bracket the bisection loop works on has its midpoint strictly between
    1e-5 and 5.0; [black_scholes] computes a result there, the loop body
    never takes the branch that returns [None], and the loop as a whole
    never returns [None] from inside. *)
Theorem bisection_never_invalid
  (S K T r marketPrice : R) (style : string) (i : nat) (lo hi : R) :
  0 < S -> 0 < K -> 0 < T ->
  style = "call"%string \/ style = "put"%string ->
  bisection_reaches S K T r marketPrice style i (lo, hi) ->
  1e-5 < (lo + hi) / 2 < 5.0 /\
  (exists res : PricingResult,
     black_scholes S K T r ((lo + hi) / 2) style = Returned (Some res)) /\
  bisection_body S K T r marketPrice style (lo, hi) <> Returned (Return None) /\
  (forall n : nat,
     for_range n (bisection_body S K T r marketPrice style) (lo, hi)
     <> Returned (Returns None)).
Proof.
  intros HS HK HT Hty Hreach.
  assert (Hmid : forall j a b,
             bisection_reaches S K T r marketPrice style j (a, b) ->
             1e-5 < (a + b) / 2 < 5.0 /\
             exists res : PricingResult,
               black_scholes S K T r ((a + b) / 2) style
               = Returned (Some res)).
  { intros j a b Hr. apply bisection_bracket in Hr.
    unfold sigma_low0, sigma_high0 in Hr.
    split; [lra |].
    assert (Hv : Spec.valid S K T ((a + b) / 2))
      by (unfold Spec.valid; repeat split; (assumption || lra)).
    destruct Hty as [-> | ->]; eexists;
      [apply black_scholes_call | apply black_scholes_put]; exact Hv. }
  assert (Hbody : forall j a b,
             bisection_reaches S K T r marketPrice style j (a, b) ->
             bisection_body S K T r marketPrice style (a, b)
             <> Returned (Return None)).
  { intros j a b Hr. destruct (Hmid j a b Hr) as (_ & res & Hres).
    unfold bisection_body. rewrite Hres. cbn [bind].
    destruct (Rltb _ PRECISION); [discriminate |].
    destruct (Rltb 0 _); discriminate. }
  split; [apply (Hmid i); exact Hreach |].
  split; [apply (Hmid i); exact Hreach |].
  split; [apply (Hbody i); exact Hreach |].
  intros n Hrun.
  destruct (for_range_returns_inv
              (fun b => exists j,
                   bisection_reaches S K T r marketPrice style j b)
              (bisection_body S K T r marketPrice style)) with
    (n := n) (s := (lo, hi)) (v := @None R) as ([a b] & [j Hj] & Hret).
  - intros s s' [j Hj] Hc. exists (Datatypes.S j).
    eapply reaches_next; eassumption.
  - exists i. exact Hreach.
  - exact Hrun.
  - exact (Hbody j a b Hj Hret).
Qed.

Lemma bisection_never_invalid_witness :
  1e-5 < (sigma_low0 + sigma_high0) / 2 < 5.0 /\
  (exists res : PricingResult,
     black_scholes 100 100 1 0.05 ((sigma_low0 + sigma_high0) / 2) "call"
     = Returned (Some res)) /\
  bisection_body 100 100 1 0.05 10 "call" (sigma_low0, sigma_high0)
  <> Returned (Return None) /\
  (forall n : nat,
     for_range n (bisection_body 100 100 1 0.05 10 "call")
       (sigma_low0, sigma_high0)
     <> Returned (Returns None)).
Proof.
  apply (bisection_never_invalid 100 100 1 0.05 10 "call" 0);
    [lra | lra | lra | left; reflexivity | apply reaches_first].
Defined.

(** ** Round trip through the solver *)










(** * Beyond the specification *)

(** ** Sensitivities of the closed forms *)

Section SpotSensitivity.

Variables (K T r sigma : R).
Hypotheses (HK : 0 < K) (HT : 0 < T) (Hs : 0 < sigma).

Lemma d1_spot_derivable_pt_lim (S : R) :
  0 < S ->
  derivable_pt_lim (fun s => Spec.d1 s K T r sigma) S
    (/ (S * sigma * sqrt T)).
Proof.
  intro HS.
  pose proof (sqrt_T_pos T HT) as Hq.
  assert (Hln : derivable_pt_lim (fun s => ln (s / K)) S (/ S)).
  { pose proof (derivable_pt_lim_comp (fun s => s / K) ln S (1 / K) (/ (S / K)))
      as H.
    replace (/ S) with (/ (S / K) * (1 / K)) by (field; lra).
    apply H.
    - apply (derivable_pt_lim_div_scal id). apply derivable_pt_lim_id.
    - apply derivable_pt_lim_ln. apply Rdiv_lt_0_compat; assumption. }
  unfold Spec.d1.
  replace (/ (S * sigma * sqrt T))
    with ((/ S + 0) / (sigma * sqrt T)) by (field; lra).
  apply (derivable_pt_lim_div_scal
           (fun s => ln (s / K) + (r + sigma ^ 2 / 2) * T)).
  apply (derivable_pt_lim_plus (fun s => ln (s / K))
           (fun _ => (r + sigma ^ 2 / 2) * T)).
  - exact Hln.
  - apply derivable_pt_lim_const.
Qed.

Lemma d2_spot_derivable_pt_lim (S : R) :
  0 < S ->
  derivable_pt_lim (fun s => Spec.d2 s K T r sigma) S
    (/ (S * sigma * sqrt T)).
Proof.
  intro HS. unfold Spec.d2.
  replace (/ (S * sigma * sqrt T)) with (/ (S * sigma * sqrt T) - 0) by ring.
  apply (derivable_pt_lim_minus (fun s => Spec.d1 s K T r sigma)
           (fun _ => sigma * sqrt T)).
  - apply d1_spot_derivable_pt_lim. exact HS.
  - apply derivable_pt_lim_const.
Qed.

Lemma call_price_spot_derivable_pt_lim (S : R) :
  0 < S ->
  derivable_pt_lim (fun s => Spec.call_price s K T r sigma) S
    (Spec.call_delta S K T r sigma).
Proof.
  intro HS.
  pose proof (sqrt_T_pos T HT) as Hq.
  pose proof (d1_spot_derivable_pt_lim S HS) as H1.
  pose proof (d2_spot_derivable_pt_lim S HS) as H2.
  pose proof (derivable_pt_lim_comp _ Normal.cdf S _ _ H1
                (cdf_derivable_pt_lim _)) as C1.
  pose proof (derivable_pt_lim_comp _ Normal.cdf S _ _ H2
                (cdf_derivable_pt_lim _)) as C2.
  pose proof (derivable_pt_lim_mult id _ S _ _ (derivable_pt_lim_id S) C1)
    as D1.
  pose proof (derivable_pt_lim_scal _ (K * exp (- (r * T))) S _ C2) as D2.
  pose proof (derivable_pt_lim_minus _ _ S _ _ D1 D2) as D.
  unfold Spec.call_delta, Spec.Phi.
  pose proof (strike_density S K T r HS HK HT sigma Hs) as Hid.
  unfold Spec.phi in Hid.
  match type of D with
  | derivable_pt_lim _ _ ?l =>
      replace (Normal.cdf (Spec.d1 S K T r sigma)) with l
  end.
  - exact D.
  - unfold comp, id.
    transitivity
      (Normal.cdf (Spec.d1 S K T r sigma)
       + (S * Normal.pdf (Spec.d1 S K T r sigma)
          - K * exp (- (r * T)) * Normal.pdf (Spec.d2 S K T r sigma))
         * / (S * sigma * sqrt T)); [ring |].
    rewrite Hid. ring.
Qed.

Lemma call_delta_spot_derivable_pt_lim (S : R) :
  0 < S ->
  derivable_pt_lim (fun s => Spec.call_delta s K T r sigma) S
    (Spec.gamma S K T r sigma).
Proof.
  intro HS.
  pose proof (d1_spot_derivable_pt_lim S HS) as H1.
  pose proof (derivable_pt_lim_comp _ Normal.cdf S _ _ H1
                (cdf_derivable_pt_lim _)) as C1.
  unfold Spec.gamma, Spec.phi. unfold Rdiv. exact C1.
Qed.

End SpotSensitivity.

Section RateSensitivity.

Variables (S K T sigma : R).
Hypotheses (HS : 0 < S) (HK : 0 < K) (HT : 0 < T) (Hs : 0 < sigma).

Lemma d1_rate_derivable_pt_lim (r : R) :
  derivable_pt_lim (fun x => Spec.d1 S K T x sigma) r
    (T / (sigma * sqrt T)).
Proof.
  pose proof (sqrt_T_pos T HT) as Hq.
  assert (Hnum : derivable_pt_lim
                   (fun x => ln (S / K) + (x + sigma ^ 2 / 2) * T) r
                   (0 + (1 + 0) * T)).
  { apply (derivable_pt_lim_plus (fun _ => ln (S / K))
             (fun x => (x + sigma ^ 2 / 2) * T));
      [apply derivable_pt_lim_const |].
    apply (derivable_pt_lim_scal_right (fun x => x + sigma ^ 2 / 2)).
    apply (derivable_pt_lim_plus id (fun _ => sigma ^ 2 / 2));
      [apply derivable_pt_lim_id | apply derivable_pt_lim_const]. }
  unfold Spec.d1.
  replace (T / (sigma * sqrt T))
    with ((0 + (1 + 0) * T) / (sigma * sqrt T)) by (field; lra).
  exact (derivable_pt_lim_div_scal _ r _ (sigma * sqrt T) Hnum).
Qed.

Lemma d2_rate_derivable_pt_lim (r : R) :
  derivable_pt_lim (fun x => Spec.d2 S K T x sigma) r
    (T / (sigma * sqrt T)).
Proof.
  unfold Spec.d2.
  replace (T / (sigma * sqrt T)) with (T / (sigma * sqrt T) - 0) by ring.
  apply (derivable_pt_lim_minus (fun x => Spec.d1 S K T x sigma)
           (fun _ => sigma * sqrt T)).
  - apply d1_rate_derivable_pt_lim.
  - apply derivable_pt_lim_const.
Qed.

Lemma discount_rate_derivable_pt_lim (r : R) :
  derivable_pt_lim (fun x => K * exp (- (x * T))) r
    (- T * (K * exp (- (r * T)))).
Proof.
  assert (H : derivable_pt_lim (fun x => - (x * T)) r (- (1 * T))).
  { apply (derivable_pt_lim_opp (fun x => x * T)).
    apply (derivable_pt_lim_scal_right id). apply derivable_pt_lim_id. }
  pose proof (derivable_pt_lim_comp _ exp r _ _ H
                (derivable_pt_lim_exp _)) as Hc.
  pose proof (derivable_pt_lim_scal _ K r _ Hc) as Hk.
  replace (- T * (K * exp (- (r * T))))
    with (K * (exp (- (r * T)) * - (1 * T))) by ring.
  exact Hk.
Qed.

Lemma call_price_rate_derivable_pt_lim (r : R) :
  derivable_pt_lim (fun x => Spec.call_price S K T x sigma) r
    (K * T * exp (- (r * T)) * Spec.Phi (Spec.d2 S K T r sigma)).
Proof.
  pose proof (sqrt_T_pos T HT) as Hq.
  pose proof (d1_rate_derivable_pt_lim r) as H1.
  pose proof (d2_rate_derivable_pt_lim r) as H2.
  pose proof (derivable_pt_lim_comp _ Normal.cdf r _ _ H1
                (cdf_derivable_pt_lim _)) as C1.
  pose proof (derivable_pt_lim_comp _ Normal.cdf r _ _ H2
                (cdf_derivable_pt_lim _)) as C2.
  pose proof (derivable_pt_lim_scal _ S r _ C1) as D1.
  pose proof (derivable_pt_lim_mult _ _ r _ _
                (discount_rate_derivable_pt_lim r) C2) as D2.
  pose proof (derivable_pt_lim_minus _ _ r _ _ D1 D2) as D.
  pose proof (strike_density S K T r HS HK HT sigma Hs) as Hid.
  unfold Spec.phi in Hid. unfold Spec.Phi.
  match type of D with
  | derivable_pt_lim _ _ ?l =>
      replace (K * T * exp (- (r * T)) * Normal.cdf (Spec.d2 S K T r sigma))
        with l
  end.
  - exact D.
  - unfold comp.
    transitivity
      (K * T * exp (- (r * T)) * Normal.cdf (Spec.d2 S K T r sigma)
       + (S * Normal.pdf (Spec.d1 S K T r sigma)
          - K * exp (- (r * T)) * Normal.pdf (Spec.d2 S K T r sigma))
         * (T / (sigma * sqrt T))); [ring |].
    rewrite Hid. ring.
Qed.

End RateSensitivity.

Section TimeSensitivity.

Variables (S K r sigma : R).
Hypotheses (HS : 0 < S) (HK : 0 < K) (Hs : 0 < sigma).

Lemma vol_sqrt_time_derivable_pt_lim (T : R) :
  0 < T ->
  derivable_pt_lim (fun t => sigma * sqrt t) T (sigma / (2 * sqrt T)).
Proof.
  intro HT.
  pose proof (derivable_pt_lim_scal _ sigma T _
                (derivable_pt_lim_sqrt T HT)) as H.
  exact H.
Qed.

Lemma d1_time_derivable (T : R) :
  0 < T -> { l : R | derivable_pt_lim (fun t => Spec.d1 S K t r sigma) T l }.
Proof.
  intro HT.
  pose proof (sqrt_T_pos T HT) as Hq.
  assert (Hnum : derivable_pt_lim
                   (fun t => ln (S / K) + (r + sigma ^ 2 / 2) * t) T
                   (0 + (r + sigma ^ 2 / 2) * 1)).
  { apply (derivable_pt_lim_plus (fun _ => ln (S / K))
             (fun t => (r + sigma ^ 2 / 2) * t));
      [apply derivable_pt_lim_const |].
    apply (derivable_pt_lim_scal id). apply derivable_pt_lim_id. }
  assert (Hnz : (fun t => sigma * sqrt t) T <> 0).
  { apply Rgt_not_eq. apply Rmult_lt_0_compat; assumption. }
  eexists.
  exact (derivable_pt_lim_div _ _ T _ _ Hnum
           (vol_sqrt_time_derivable_pt_lim T HT) Hnz).
Qed.

Lemma call_price_time_derivable_pt_lim (T : R) :
  0 < T ->
  derivable_pt_lim (fun t => Spec.call_price S K t r sigma) T
    (S * Spec.phi (Spec.d1 S K T r sigma) * sigma / (2 * sqrt T)
     + r * K * exp (- (r * T)) * Spec.Phi (Spec.d2 S K T r sigma)).
Proof.
  intro HT.
  pose proof (sqrt_T_pos T HT) as Hq.
  destruct (d1_time_derivable T HT) as [l H1].
  assert (H2 : derivable_pt_lim (fun t => Spec.d2 S K t r sigma) T
                 (l - sigma / (2 * sqrt T))).
  { unfold Spec.d2.
    apply (derivable_pt_lim_minus (fun t => Spec.d1 S K t r sigma)
             (fun t => sigma * sqrt t));
      [exact H1 | apply vol_sqrt_time_derivable_pt_lim; exact HT]. }
  assert (Hdisc : derivable_pt_lim (fun t => K * exp (- (r * t))) T
                    (- r * (K * exp (- (r * T))))).
  { assert (H : derivable_pt_lim (fun t => - (r * t)) T (- (r * 1))).
    { apply (derivable_pt_lim_opp (fun t => r * t)).
      apply (derivable_pt_lim_scal id). apply derivable_pt_lim_id. }
    pose proof (derivable_pt_lim_comp _ exp T _ _ H
                  (derivable_pt_lim_exp _)) as Hc.
    pose proof (derivable_pt_lim_scal _ K T _ Hc) as Hk.
    replace (- r * (K * exp (- (r * T))))
      with (K * (exp (- (r * T)) * - (r * 1))) by ring.
    exact Hk. }
  pose proof (derivable_pt_lim_comp _ Normal.cdf T _ _ H1
                (cdf_derivable_pt_lim _)) as C1.
  pose proof (derivable_pt_lim_comp _ Normal.cdf T _ _ H2
                (cdf_derivable_pt_lim _)) as C2.
  pose proof (derivable_pt_lim_scal _ S T _ C1) as D1.
  pose proof (derivable_pt_lim_mult _ _ T _ _ Hdisc C2) as D2.
  pose proof (derivable_pt_lim_minus _ _ T _ _ D1 D2) as D.
  pose proof (strike_density S K T r HS HK HT sigma Hs) as Hid.
  unfold Spec.phi in Hid |- *. unfold Spec.Phi.
  match type of D with
  | derivable_pt_lim _ _ ?d =>
      replace (S * Normal.pdf (Spec.d1 S K T r sigma) * sigma / (2 * sqrt T)
               + r * K * exp (- (r * T))
                 * Normal.cdf (Spec.d2 S K T r sigma))
        with d
  end.
  - exact D.
  - unfold comp.
    transitivity
      (r * K * exp (- (r * T)) * Normal.cdf (Spec.d2 S K T r sigma)
       + (S * Normal.pdf (Spec.d1 S K T r sigma)
          - K * exp (- (r * T)) * Normal.pdf (Spec.d2 S K T r sigma)) * l
       + K * exp (- (r * T)) * Normal.pdf (Spec.d2 S K T r sigma)
         * (sigma / (2 * sqrt T))); [ring |].
    rewrite Hid. field. lra.
Qed.

End TimeSensitivity.

(** ** The put side, by parity *)

Lemma put_price_by_parity (S K T r sigma : R) :
  Spec.put_price S K T r sigma
  = Spec.call_price S K T r sigma - (S - K * exp (- (r * T))).
Proof. pose proof (put_call_parity S K T r sigma). lra. Qed.

Lemma derivable_pt_lim_eq (f g : R -> R) (x l l' : R) :
  (forall y, f y = g y) -> l = l' ->
  derivable_pt_lim g x l -> derivable_pt_lim f x l'.
Proof.
  intros Hfg <- Hg.
  apply (derivable_pt_lim_locally_eq f g x l 1); [lra | | exact Hg].
  intros y _. apply Hfg.
Qed.

Lemma put_price_derivable_pt_lim (S K T r sigma : R) :
  0 < S -> 0 < K -> 0 < T -> 0 < sigma ->
  derivable_pt_lim (Spec.put_price S K T r) sigma
    (S * Spec.phi (Spec.d1 S K T r sigma) * sqrt T).
Proof.
  intros HS HK HT Hs.
  apply (derivable_pt_lim_eq _
           (fun s => Spec.call_price S K T r s - (S - K * exp (- (r * T))))
           _ (S * Spec.phi (Spec.d1 S K T r sigma) * sqrt T - 0));
    [intro y; apply put_price_by_parity | ring |].
  apply (derivable_pt_lim_minus (Spec.call_price S K T r) (fun _ => _)).
  - apply call_price_derivable_pt_lim; assumption.
  - apply derivable_pt_lim_const.
Qed.

Lemma put_price_spot_derivable_pt_lim (S K T r sigma : R) :
  0 < S -> 0 < K -> 0 < T -> 0 < sigma ->
  derivable_pt_lim (fun s => Spec.put_price s K T r sigma) S
    (Spec.put_delta S K T r sigma).
Proof.
  intros HS HK HT Hs.
  apply (derivable_pt_lim_eq _
           (fun s => Spec.call_price s K T r sigma
                     - (s - K * exp (- (r * T))))
           _ (Spec.call_delta S K T r sigma - (1 - 0)));
    [intro y; apply put_price_by_parity | |].
  - unfold Spec.put_delta, Spec.call_delta, Spec.Phi. rewrite cdf_opp. ring.
  - apply (derivable_pt_lim_minus (fun s => Spec.call_price s K T r sigma)
             (fun s => s - K * exp (- (r * T)))).
    + apply call_price_spot_derivable_pt_lim; assumption.
    + apply (derivable_pt_lim_minus id (fun _ => _));
        [apply derivable_pt_lim_id | apply derivable_pt_lim_const].
Qed.

Lemma put_delta_spot_derivable_pt_lim (S K T r sigma : R) :
  0 < S -> 0 < K -> 0 < T -> 0 < sigma ->
  derivable_pt_lim (fun s => Spec.put_delta s K T r sigma) S
    (Spec.gamma S K T r sigma).
Proof.
  intros HS HK HT Hs.
  apply (derivable_pt_lim_eq _
           (fun s => Spec.call_delta s K T r sigma - 1)
           _ (Spec.gamma S K T r sigma - 0)); [| ring |].
  - intro y. unfold Spec.put_delta, Spec.call_delta, Spec.Phi.
    rewrite cdf_opp. ring.
  - apply (derivable_pt_lim_minus (fun s => Spec.call_delta s K T r sigma)
             (fun _ => 1)).
    + apply call_delta_spot_derivable_pt_lim; assumption.
    + apply derivable_pt_lim_const.
Qed.

Lemma put_price_rate_derivable_pt_lim (S K T r sigma : R) :
  0 < S -> 0 < K -> 0 < T -> 0 < sigma ->
  derivable_pt_lim (fun x => Spec.put_price S K T x sigma) r
    (K * T * exp (- (r * T)) * - Spec.Phi (- Spec.d2 S K T r sigma)).
Proof.
  intros HS HK HT Hs.
  apply (derivable_pt_lim_eq _
           (fun x => Spec.call_price S K T x sigma
                     - (S - K * exp (- (x * T))))
           _ (K * T * exp (- (r * T)) * Spec.Phi (Spec.d2 S K T r sigma)
              - (0 - - T * (K * exp (- (r * T))))));
    [intro y; apply put_price_by_parity | |].
  - unfold Spec.Phi. rewrite cdf_opp. ring.
  - apply (derivable_pt_lim_minus (fun x => Spec.call_price S K T x sigma)
             (fun x => S - K * exp (- (x * T)))).
    + apply call_price_rate_derivable_pt_lim; assumption.
    + apply (derivable_pt_lim_minus (fun _ => S)
               (fun x => K * exp (- (x * T))));
        [apply derivable_pt_lim_const
        | apply discount_rate_derivable_pt_lim].
Qed.

Lemma discount_time_derivable_pt_lim (K r T : R) :
  derivable_pt_lim (fun t => K * exp (- (r * t))) T
    (- r * (K * exp (- (r * T)))).
Proof.
  assert (H : derivable_pt_lim (fun t => - (r * t)) T (- (r * 1))).
  { apply (derivable_pt_lim_opp (fun t => r * t)).
    apply (derivable_pt_lim_scal id). apply derivable_pt_lim_id. }
  pose proof (derivable_pt_lim_comp _ exp T _ _ H
                (derivable_pt_lim_exp _)) as Hc.
  pose proof (derivable_pt_lim_scal _ K T _ Hc) as Hk.
  replace (- r * (K * exp (- (r * T))))
    with (K * (exp (- (r * T)) * - (r * 1))) by ring.
  exact Hk.
Qed.

Lemma put_price_time_derivable_pt_lim (S K T r sigma : R) :
  0 < S -> 0 < K -> 0 < T -> 0 < sigma ->
  derivable_pt_lim (fun t => Spec.put_price S K t r sigma) T
    (S * Spec.phi (Spec.d1 S K T r sigma) * sigma / (2 * sqrt T)
     - r * K * exp (- (r * T)) * Spec.Phi (- Spec.d2 S K T r sigma)).
Proof.
  intros HS HK HT Hs.
  apply (derivable_pt_lim_eq _
           (fun t => Spec.call_price S K t r sigma
                     - (S - K * exp (- (r * t))))
           _ (S * Spec.phi (Spec.d1 S K T r sigma) * sigma / (2 * sqrt T)
              + r * K * exp (- (r * T)) * Spec.Phi (Spec.d2 S K T r sigma)
              - (0 - - r * (K * exp (- (r * T))))));
    [intro y; apply put_price_by_parity | |].
  - unfold Spec.Phi. rewrite cdf_opp. ring.
  - apply (derivable_pt_lim_minus (fun t => Spec.call_price S K t r sigma)
             (fun t => S - K * exp (- (r * t)))).
    + apply call_price_time_derivable_pt_lim; assumption.
    + apply (derivable_pt_lim_minus (fun _ => S)
               (fun t => K * exp (- (r * t))));
        [apply derivable_pt_lim_const
        | apply discount_time_derivable_pt_lim].
Qed.

(** ** The Greeks as sensitivities of the returned price *)

Lemma black_scholes_styles (S K T r sigma : R) (ty : string) :
  Spec.valid S K T sigma ->
  ty = "call"%string \/ ty = "put"%string ->
  black_scholes S K T r sigma ty
  = Returned
      (Some
         (if String.eqb ty "call" then
            {| optionPrice := Spec.call_price S K T r sigma;
               delta := Spec.call_delta S K T r sigma;
               gamma := Spec.gamma S K T r sigma;
               vega := Spec.vega S K T r sigma;
               theta := Spec.call_theta S K T r sigma;
               rho := Spec.call_rho S K T r sigma |}
          else
            {| optionPrice := Spec.put_price S K T r sigma;
               delta := Spec.put_delta S K T r sigma;
               gamma := Spec.gamma S K T r sigma;
               vega := Spec.vega S K T r sigma;
               theta := Spec.put_theta S K T r sigma;
               rho := Spec.put_rho S K T r sigma |})).
Proof.
  intros Hv [-> | ->];
    [apply black_scholes_call | apply black_scholes_put]; exact Hv.
Qed.

(** X1: the reported vega is the sensitivity of the reported price to the
    volatility: on a valid input the price [black_scholes] returns, as a
    function of sigma, has the derivative vega * 100 (vega is quoted per
    percentage point). *)
Theorem vega_is_volatility_sensitivity (S K T r sigma : R) (ty : string) :
  0 < S -> 0 < K -> 0 < T -> 0 < sigma ->
  ty = "call"%string \/ ty = "put"%string ->
  exists res : PricingResult,
    black_scholes S K T r sigma ty = Returned (Some res) /\
    derivable_pt_lim
      (fun s => field_of (black_scholes S K T r s ty) optionPrice)
      sigma (vega res * 100).
Proof.
  intros HS HK HT Hs Hty.
  assert (Hv : Spec.valid S K T sigma) by (repeat split; assumption).
  eexists. split; [apply black_scholes_styles; assumption |].
  apply (derivable_pt_lim_locally_eq _
           (if String.eqb ty "call" then Spec.call_price S K T r
            else Spec.put_price S K T r) sigma _ sigma); [exact Hs | |].
  - intros y Hy. apply Rabs_def2 in Hy.
    rewrite black_scholes_styles;
      [| unfold Spec.valid; repeat split; (assumption || lra) | exact Hty].
    destruct Hty as [-> | ->]; reflexivity.
  - pose proof (sqrt_T_pos T HT).
    destruct Hty as [-> | ->]; cbn [String.eqb Ascii.eqb Bool.eqb vega];
      unfold Spec.vega;
      replace (S * Spec.phi (Spec.d1 S K T r sigma) * sqrt T / 100 * 100)
        with (S * Spec.phi (Spec.d1 S K T r sigma) * sqrt T) by field.
    + apply call_price_derivable_pt_lim; assumption.
    + apply put_price_derivable_pt_lim; assumption.
Qed.

Ltac valid_nearby Hy :=
  apply Rabs_def2 in Hy;
  unfold Spec.valid; repeat split; (assumption || lra).

(** X2: the reported delta is the derivative of the reported price in the
    spot S, for a call and for a put. *)
Theorem delta_is_spot_sensitivity (S K T r sigma : R) (ty : string) :
  0 < S -> 0 < K -> 0 < T -> 0 < sigma ->
  ty = "call"%string \/ ty = "put"%string ->
  exists res : PricingResult,
    black_scholes S K T r sigma ty = Returned (Some res) /\
    derivable_pt_lim
      (fun s => field_of (black_scholes s K T r sigma ty) optionPrice)
      S (delta res).
Proof.
  intros HS HK HT Hs Hty.
  assert (Hv : Spec.valid S K T sigma) by (repeat split; assumption).
  eexists. split; [apply black_scholes_styles; assumption |].
  apply (derivable_pt_lim_locally_eq _
           (fun s => if String.eqb ty "call" then Spec.call_price s K T r sigma
                     else Spec.put_price s K T r sigma) S _ S);
    [exact HS | |].
  - intros y Hy.
    rewrite black_scholes_styles; [| valid_nearby Hy | exact Hty].
    destruct Hty as [-> | ->]; reflexivity.
  - destruct Hty as [-> | ->]; cbn [String.eqb Ascii.eqb Bool.eqb delta].
    + apply call_price_spot_derivable_pt_lim; assumption.
    + apply put_price_spot_derivable_pt_lim; assumption.
Qed.

(** X3: the reported gamma is the derivative of the reported delta in the
    spot S, for a call and for a put. *)
Theorem gamma_is_delta_sensitivity (S K T r sigma : R) (ty : string) :
  0 < S -> 0 < K -> 0 < T -> 0 < sigma ->
  ty = "call"%string \/ ty = "put"%string ->
  exists res : PricingResult,
    black_scholes S K T r sigma ty = Returned (Some res) /\
    derivable_pt_lim
      (fun s => field_of (black_scholes s K T r sigma ty) delta)
      S (gamma res).
Proof.
  intros HS HK HT Hs Hty.
  assert (Hv : Spec.valid S K T sigma) by (repeat split; assumption).
  eexists. split; [apply black_scholes_styles; assumption |].
  apply (derivable_pt_lim_locally_eq _
           (fun s => if String.eqb ty "call" then Spec.call_delta s K T r sigma
                     else Spec.put_delta s K T r sigma) S _ S);
    [exact HS | |].
  - intros y Hy.
    rewrite black_scholes_styles; [| valid_nearby Hy | exact Hty].
    destruct Hty as [-> | ->]; reflexivity.
  - destruct Hty as [-> | ->]; cbn [String.eqb Ascii.eqb Bool.eqb gamma].
    + apply call_delta_spot_derivable_pt_lim; assumption.
    + apply put_delta_spot_derivable_pt_lim; assumption.
Qed.

(** X4: the reported rho is the sensitivity of the reported price to the
    rate: the price as a function of r has the derivative rho * 100. *)
Theorem rho_is_rate_sensitivity (S K T r sigma : R) (ty : string) :
  0 < S -> 0 < K -> 0 < T -> 0 < sigma ->
  ty = "call"%string \/ ty = "put"%string ->
  exists res : PricingResult,
    black_scholes S K T r sigma ty = Returned (Some res) /\
    derivable_pt_lim
      (fun x => field_of (black_scholes S K T x sigma ty) optionPrice)
      r (rho res * 100).
Proof.
  intros HS HK HT Hs Hty.
  assert (Hv : Spec.valid S K T sigma) by (repeat split; assumption).
  eexists. split; [apply black_scholes_styles; assumption |].
  apply (derivable_pt_lim_eq _
           (fun x => if String.eqb ty "call" then Spec.call_price S K T x sigma
                     else Spec.put_price S K T x sigma) r
           (if String.eqb ty "call"
            then K * T * exp (- (r * T)) * Spec.Phi (Spec.d2 S K T r sigma)
            else K * T * exp (- (r * T))
                 * - Spec.Phi (- Spec.d2 S K T r sigma))).
  - intro y. rewrite black_scholes_styles by assumption.
    destruct Hty as [-> | ->]; reflexivity.
  - destruct Hty as [-> | ->]; cbn [String.eqb Ascii.eqb Bool.eqb rho];
      [unfold Spec.call_rho | unfold Spec.put_rho]; field.
  - destruct Hty as [-> | ->]; cbn [String.eqb Ascii.eqb Bool.eqb].
    + apply call_price_rate_derivable_pt_lim; assumption.
    + apply put_price_rate_derivable_pt_lim; assumption.
Qed.

(** X5: for a call the reported theta is the time decay per day: the
    price as a function of the time to maturity T has the derivative
    - theta * 365. *)
Theorem call_theta_is_time_decay (S K T r sigma : R) :
  0 < S -> 0 < K -> 0 < T -> 0 < sigma ->
  exists res : PricingResult,
    black_scholes S K T r sigma "call" = Returned (Some res) /\
    derivable_pt_lim
      (fun t => field_of (black_scholes S K t r sigma "call") optionPrice)
      T (- (theta res * 365)).
Proof.
  intros HS HK HT Hs.
  assert (Hv : Spec.valid S K T sigma) by (repeat split; assumption).
  eexists. split; [apply black_scholes_call; assumption |].
  pose proof (sqrt_T_pos T HT).
  apply (derivable_pt_lim_locally_eq _
           (fun t => Spec.call_price S K t r sigma) T _ T); [exact HT | |].
  - intros y Hy. rewrite black_scholes_call; [reflexivity | valid_nearby Hy].
  - cbn [theta]. unfold Spec.call_theta.
    match goal with
    | |- derivable_pt_lim _ _ ?l =>
        replace l
          with (S * Spec.phi (Spec.d1 S K T r sigma) * sigma / (2 * sqrt T)
                + r * K * exp (- (r * T)) * Spec.Phi (Spec.d2 S K T r sigma))
          by (field; lra)
    end.
    apply call_price_time_derivable_pt_lim; assumption.
Qed.

(** X6: for a put the reported theta is not the time decay.  The price
    of the put as a function of T has the derivative
    - theta * 365 - 2*r*K*e^(-rT)*Phi(-d2); so, when r is not zero and
    d2 <= 0, - theta * 365 is not that derivative. *)
Theorem put_theta_misses_time_decay (S K T r sigma : R) :
  0 < S -> 0 < K -> 0 < T -> 0 < sigma ->
  exists res : PricingResult,
    black_scholes S K T r sigma "put" = Returned (Some res) /\
    derivable_pt_lim
      (fun t => field_of (black_scholes S K t r sigma "put") optionPrice)
      T (- (theta res * 365)
         - 2 * r * K * exp (- (r * T))
           * Normal.cdf (- Spec.d2 S K T r sigma)) /\
    (r <> 0 -> Spec.d2 S K T r sigma <= 0 ->
     ~ derivable_pt_lim
         (fun t => field_of (black_scholes S K t r sigma "put") optionPrice)
         T (- (theta res * 365))).
Proof.
  intros HS HK HT Hs.
  assert (Hv : Spec.valid S K T sigma) by (repeat split; assumption).
  eexists. split; [apply black_scholes_put; assumption |].
  pose proof (sqrt_T_pos T HT).
  match goal with |- ?D /\ _ => assert (Hd : D) end.
  { apply (derivable_pt_lim_locally_eq _
             (fun t => Spec.put_price S K t r sigma) T _ T); [exact HT | |].
    - intros y Hy. rewrite black_scholes_put; [reflexivity | valid_nearby Hy].
    - cbn [theta]. unfold Spec.put_theta.
      match goal with
      | |- derivable_pt_lim _ _ ?l =>
          replace l
            with (S * Spec.phi (Spec.d1 S K T r sigma) * sigma / (2 * sqrt T)
                  - r * K * exp (- (r * T))
                    * Spec.Phi (- Spec.d2 S K T r sigma))
            by (unfold Spec.Phi; field; lra)
      end.
      apply put_price_time_derivable_pt_lim; assumption. }
  split; [exact Hd |].
  intros Hr Hd2 Hwrong.
  pose proof (uniqueness_limite _ _ _ _ Hd Hwrong) as Heq.
  assert (Hcdf : 1 / 2 <= Normal.cdf (- Spec.d2 S K T r sigma)).
  { destruct (Req_dec (Spec.d2 S K T r sigma) 0) as [-> | Hne].
    - rewrite Ropp_0, cdf_0. lra.
    - pose proof (cdf_increasing 0 (- Spec.d2 S K T r sigma) ltac:(lra)) as Hi.
      rewrite cdf_0 in Hi. lra. }
  pose proof (exp_pos (- (r * T))) as He.
  assert (Hprod : 0 < K * exp (- (r * T))
                      * Normal.cdf (- Spec.d2 S K T r sigma)).
  { apply Rmult_lt_0_compat; [apply Rmult_lt_0_compat; assumption | lra]. }
  assert (Hz : r * (K * exp (- (r * T))
                    * Normal.cdf (- Spec.d2 S K T r sigma)) = 0) by lra.
  apply Rmult_integral in Hz. destruct Hz; [tauto | lra].
Qed.

(** ** Convergence of the bisection loop *)

Lemma black_scholes_closed_form (S K T r sigma : R) (ty : string) :
  Spec.valid S K T sigma ->
  ty = "call"%string \/ ty = "put"%string ->
  exists res : PricingResult,
    black_scholes S K T r sigma ty = Returned (Some res) /\
    optionPrice res = closed_form_price S K T r ty sigma.
Proof.
  intros Hv [-> | ->]; eexists;
    (split; [(apply black_scholes_call || apply black_scholes_put); exact Hv
            | reflexivity]).
Qed.

Section Bisection.

Variables (S K T r : R) (ty : string).
Hypotheses (HS : 0 < S) (HK : 0 < K) (HT : 0 < T).
Hypothesis Hty : ty = "call"%string \/ ty = "put"%string.

Let f := closed_form_price S K T r ty.


Variable P : R.


Variable sigma_star : R.
Hypothesis HP : P = f sigma_star.


End Bisection.

Lemma black_scholes_returns (S K T r sigma : R) (ty : string) :
  exists v : option PricingResult,
    black_scholes S K T r sigma ty = Returned v.
Proof.
  destruct (black_scholes_invalid_cases S K T r sigma ty)
    as [[(Hs & HS & HK & HT) Hty] | Hnone].
  - destruct (black_scholes_closed_form S K T r sigma ty)
      as (res & Hres & _); [repeat split; assumption | exact Hty |].
    exists (Some res). exact Hres.
  - exists None. exact Hnone.
Qed.




(** ** Exceptions of the solver *)

Lemma for_range_never_raises {St : Type}
  (body : St -> outcome (control St)) :
  (forall s, exists c, body s = Returned c) ->
  forall (n : nat) (s : St), exists l, for_range n body s = Returned l.
Proof.
  intros Hbody n. induction n as [| n IH]; intro s.
  - eexists. reflexivity.
  - rewrite for_range_succ. destruct (Hbody s) as [c ->]. cbn [bind].
    destruct c as [v | | s']; [eexists; reflexivity .. | apply IH].
Qed.

Lemma newton_body_never_raises (S K T r p : R) (ty : string) (sigma : R) :
  exists c, newton_body S K T r p ty sigma = Returned c.
Proof.
  unfold newton_body.
  destruct (black_scholes_returns S K T r sigma ty) as [[res |] ->];
    cbn [bind]; [| eexists; reflexivity].
  destruct (Rltb _ PRECISION); [eexists; reflexivity |].
  destruct (Reqb _ 0); eexists; reflexivity.
Qed.

Lemma bisection_body_never_raises
  (S K T r p : R) (ty : string) (bracket : R * R) :
  exists c, bisection_body S K T r p ty bracket = Returned c.
Proof.
  destruct bracket as [lo hi]. unfold bisection_body.
  destruct (black_scholes_returns S K T r ((lo + hi) / 2) ty)
    as [[res |] ->]; cbn [bind]; [| eexists; reflexivity].
  destruct (Rltb _ PRECISION); [eexists; reflexivity |].
  destruct (Rltb 0 _); eexists; reflexivity.
Qed.

(** Once the first guess is there, the solver returns. *)
Lemma implied_volatility_after_guess
  (S K T r p : R) (ty : string) (g : R) :
  manaster_koehler_initial_guess S K T r p ty = Returned g ->
  exists v, implied_volatility S K T r p ty = Returned v.
Proof.
  intro Hg. unfold implied_volatility. rewrite Hg. cbn [bind].
  destruct (for_range_never_raises _ (newton_body_never_raises S K T r p ty)
              MAX_ITERATIONS g) as [[v |] ->]; cbn [bind];
    [eexists; reflexivity |].
  destruct (for_range_never_raises _
              (bisection_body_never_raises S K T r p ty)
              MAX_ITERATIONS (sigma_low0, sigma_high0)) as [[v |] ->];
    cbn [bind]; eexists; reflexivity.
Qed.

Lemma implied_volatility_raises_zero_strike
  (S K T r p : R) (ty : string) :
  implied_volatility S K T r p ty = Raised ZeroDivisionError -> K = 0.
Proof.
  intro H. destruct (Req_dec_T K 0) as [| HK]; [assumption | exfalso].
  assert (Hg : exists g,
             manaster_koehler_initial_guess S K T r p ty = Returned g).
  { unfold manaster_koehler_initial_guess.
    destruct (Rleb _ 0); [eexists; reflexivity |].
    rewrite py_truediv_nonzero by exact HK. eexists. reflexivity. }
  destruct Hg as [g Hg].
  destruct (implied_volatility_after_guess S K T r p ty g Hg) as [v Hv].
  rewrite Hv in H. discriminate.
Qed.

(** X13: the solver raises exactly when the strike is zero and the market
    price exceeds the intrinsic value: the division S / K of the first
    guess raises [ZeroDivisionError]; on every other input it returns. *)
Theorem implied_volatility_raises_iff
  (S K T r option_price : R) (option_type : string) :
  implied_volatility S K T r option_price option_type
  = Raised ZeroDivisionError
  <->
  K = 0 /\
  0 < option_price
      - (if String.eqb option_type "call" then Rmax 0 (S - K)
         else Rmax 0 (K - S)).
Proof.
  destruct (Rle_lt_dec
              (option_price
               - (if String.eqb option_type "call" then Rmax 0 (S - K)
                  else Rmax 0 (K - S))) 0) as [Htv | Htv].
  - destruct (implied_volatility_after_guess S K T r option_price
                option_type 0.0001) as [v Hv];
      [apply manaster_koehler_degenerate; exact Htv |].
    rewrite Hv. split; [discriminate | intros [_ H]; lra].
  - destruct (Req_dec_T K 0) as [-> | HK].
    + split; [intros _; split; [reflexivity | exact Htv] | intros _].
      unfold implied_volatility, manaster_koehler_initial_guess.
      apply Rleb_false in Htv. rewrite Htv, py_truediv_zero. reflexivity.
    + destruct (implied_volatility_after_guess S K T r option_price
                  option_type
                  (sqrt (2 * Rabs ((ln (S / K) + r * T) / T)))) as [v Hv].
      { unfold manaster_koehler_initial_guess.
        apply Rleb_false in Htv. rewrite Htv, py_truediv_nonzero by exact HK.
        reflexivity. }
      rewrite Hv. split; [discriminate | intros [H _]; tauto].
Qed.

(** ** How the solver can fail on a price of the model *)



(** ** The first guess *)

(** X12: with valid S, K, T and a known style the first guess is never
    negative, and the first pricing call of the Newton loop is invalid
    exactly when the time value is positive and ln(S/K) + r*T = 0. *)
Theorem first_guess_rejected_iff
  (S K T r option_price : R) (ty : string) :
  0 < S -> 0 < K -> 0 < T ->
  ty = "call"%string \/ ty = "put"%string ->
  exists g : R,
    manaster_koehler_initial_guess S K T r option_price ty = Returned g /\
    0 <= g /\
    (black_scholes S K T r g ty = Returned None <->
     0 < option_price
         - (if String.eqb ty "call" then Rmax 0 (S - K) else Rmax 0 (K - S))
     /\ ln (S / K) + r * T = 0).
Proof.
  intros HS HK HT Hty.
  assert (Hvalid : forall g, 0 < g ->
             black_scholes S K T r g ty <> Returned None).
  { intros g Hg.
    destruct (black_scholes_closed_form S K T r g ty) as (res & -> & _);
      [repeat split; assumption | exact Hty | discriminate]. }
  destruct (Rle_lt_dec
              (option_price
               - (if String.eqb ty "call" then Rmax 0 (S - K)
                  else Rmax 0 (K - S))) 0) as [Htv | Htv].
  - exists 0.0001. split; [apply manaster_koehler_degenerate; exact Htv |].
    split; [lra |]. split.
    + intro H. exfalso. apply (Hvalid 0.0001); [lra | exact H].
    + intros [H _]. lra.
  - exists (sqrt (2 * Rabs ((ln (S / K) + r * T) / T))). split.
    { unfold manaster_koehler_initial_guess.
      apply Rleb_false in Htv. rewrite Htv, py_truediv_nonzero by lra.
      reflexivity. }
    split; [apply sqrt_pos |]. split.
    + intro H. split; [exact Htv |].
      destruct (Req_dec (ln (S / K) + r * T) 0) as [| Hne]; [assumption |].
      exfalso. apply (Hvalid (sqrt (2 * Rabs ((ln (S / K) + r * T) / T))));
        [| exact H].
      apply sqrt_lt_R0.
      assert (0 < Rabs ((ln (S / K) + r * T) / T)); [| lra].
      apply Rabs_pos_lt. unfold Rdiv.
      apply Rmult_integral_contrapositive_currified;
        [exact Hne | apply Rinv_neq_0_compat; lra].
    + intros [_ Hz]. rewrite Hz. unfold Rdiv.
      rewrite Rmult_0_l, Rabs_R0, Rmult_0_r, sqrt_0.
      apply black_scholes_violated. unfold violated. lra.
Qed.

Lemma first_guess_rejected_iff_witness :
  exists g : R,
    manaster_koehler_initial_guess 100 90 1 0.05 12 "call" = Returned g /\
    0 <= g /\
    (black_scholes 100 90 1 0.05 g "call" = Returned None <->
     0 < 12 - (if String.eqb "call" "call" then Rmax 0 (100 - 90)
               else Rmax 0 (90 - 100))
     /\ ln (100 / 90) + 0.05 * 1 = 0).
Proof.
  apply (first_guess_rejected_iff 100 90 1 0.05 12 "call");
    [lra | lra | lra | left; reflexivity].
Defined.

(** ** Relations between the Greeks of a call and of a put *)

(** X7: for one valid input the call and the put have the same gamma and
    the same vega, their deltas differ by 1 and their rhos by
    K*T*e^(-rT)/100. *)
Theorem greeks_parity (S K T r sigma : R) :
  0 < S -> 0 < K -> 0 < T -> 0 < sigma ->
  exists c p : PricingResult,
    black_scholes S K T r sigma "call" = Returned (Some c) /\
    black_scholes S K T r sigma "put" = Returned (Some p) /\
    delta c - delta p = 1 /\
    gamma c = gamma p /\
    vega c = vega p /\
    rho c - rho p = K * T * exp (- (r * T)) / 100.
Proof.
  intros HS HK HT Hs.
  assert (Hv : Spec.valid S K T sigma) by (repeat split; assumption).
  do 2 eexists.
  split; [apply black_scholes_call; exact Hv |].
  split; [apply black_scholes_put; exact Hv |].
  cbn [delta gamma vega rho].
  unfold Spec.call_delta, Spec.put_delta, Spec.call_rho, Spec.put_rho,
    Spec.Phi.
  rewrite !cdf_opp. repeat split; field.
Qed.

Lemma greeks_parity_witness :
  exists c p : PricingResult,
    black_scholes 100 100 1 0.05 0.2 "call" = Returned (Some c) /\
    black_scholes 100 100 1 0.05 0.2 "put" = Returned (Some p) /\
    delta c - delta p = 1 /\
    gamma c = gamma p /\
    vega c = vega p /\
    rho c - rho p = 100 * 1 * exp (- (0.05 * 1)) / 100.
Proof. apply (greeks_parity 100 100 1 0.05 0.2); lra. Defined.



(** ** The brackets of the bisection loop *)



(** ** Witnesses of the sensitivities *)

Lemma vega_is_volatility_sensitivity_witness :
  exists res : PricingResult,
    black_scholes 100 100 1 0.05 0.2 "call" = Returned (Some res) /\
    derivable_pt_lim
      (fun s => field_of (black_scholes 100 100 1 0.05 s "call") optionPrice)
      0.2 (vega res * 100).
Proof.
  apply (vega_is_volatility_sensitivity 100 100 1 0.05 0.2 "call");
    [lra | lra | lra | lra | left; reflexivity].
Defined.

Lemma delta_is_spot_sensitivity_witness :
  exists res : PricingResult,
    black_scholes 100 100 1 0.05 0.2 "put" = Returned (Some res) /\
    derivable_pt_lim
      (fun s => field_of (black_scholes s 100 1 0.05 0.2 "put") optionPrice)
      100 (delta res).
Proof.
  apply (delta_is_spot_sensitivity 100 100 1 0.05 0.2 "put");
    [lra | lra | lra | lra | right; reflexivity].
Defined.

Lemma gamma_is_delta_sensitivity_witness :
  exists res : PricingResult,
    black_scholes 100 100 1 0.05 0.2 "call" = Returned (Some res) /\
    derivable_pt_lim
      (fun s => field_of (black_scholes s 100 1 0.05 0.2 "call") delta)
      100 (gamma res).
Proof.
  apply (gamma_is_delta_sensitivity 100 100 1 0.05 0.2 "call");
    [lra | lra | lra | lra | left; reflexivity].
Defined.

Lemma rho_is_rate_sensitivity_witness :
  exists res : PricingResult,
    black_scholes 100 100 1 0.05 0.2 "put" = Returned (Some res) /\
    derivable_pt_lim
      (fun x => field_of (black_scholes 100 100 1 x 0.2 "put") optionPrice)
      0.05 (rho res * 100).
Proof.
  apply (rho_is_rate_sensitivity 100 100 1 0.05 0.2 "put");
    [lra | lra | lra | lra | right; reflexivity].
Defined.

Lemma call_theta_is_time_decay_witness :
  exists res : PricingResult,
    black_scholes 100 100 1 0.05 0.2 "call" = Returned (Some res) /\
    derivable_pt_lim
      (fun t => field_of (black_scholes 100 100 t 0.05 0.2 "call") optionPrice)
      1 (- (theta res * 365)).
Proof.
  apply (call_theta_is_time_decay 100 100 1 0.05 0.2); lra.
Defined.

Lemma put_theta_misses_time_decay_witness :
  exists res : PricingResult,
    black_scholes 100 100 1 0.02 0.2 "put" = Returned (Some res) /\
    derivable_pt_lim
      (fun t => field_of (black_scholes 100 100 t 0.02 0.2 "put") optionPrice)
      1 (- (theta res * 365)
         - 2 * 0.02 * 100 * exp (- (0.02 * 1))
           * Normal.cdf (- Spec.d2 100 100 1 0.02 0.2)) /\
    ~ derivable_pt_lim
        (fun t => field_of (black_scholes 100 100 t 0.02 0.2 "put")
                    optionPrice)
        1 (- (theta res * 365)).
Proof.
  destruct (put_theta_misses_time_decay 100 100 1 0.02 0.2)
    as (res & Hres & Hd & Hn); [lra | lra | lra | lra |].
  exists res. split; [exact Hres |]. split; [exact Hd |].
  apply Hn; [lra | rewrite example_d2; lra].
Defined.

(** ** calculate *)

Section CalculateProperties.

Variable float_of_string : string -> option R.

Local Abbreviation to_float := (py_float float_of_string).
Local Abbreviation to_positive := (positive_number float_of_string).
Local Abbreviation to_required := (required float_of_string).

Lemma py_float_throws (v : json) (e : py_error) :
  to_float v = Throw e ->
  (exists s, e = ValueError s) \/ (exists a, e = TypeError a).
Proof.
  destruct v as [| b | x | s | l | m]; simpl; intro H;
    try discriminate; try (injection H as <-; right; eexists; reflexivity).
  destruct (float_of_string s); [discriminate |].
  injection H as <-. left. eexists. reflexivity.
Qed.

Lemma positive_number_some (v : json) (x : R) :
  to_positive v = Done (Some x) -> to_float v = Done x /\ 0 < x.
Proof.
  unfold positive_number.
  destruct (negb (truthy v)); [discriminate |].
  destruct (to_float v) as [y | e]; [cbn [and_then] | discriminate].
  destruct (Rleb y 0) eqn:Hy; [discriminate |].
  intro H. injection H as <-. apply Rleb_false in Hy.
  split; [reflexivity | exact Hy].
Qed.

Lemma positive_number_throws (v : json) (e : py_error) :
  to_positive v = Throw e ->
  (exists s, e = ValueError s) \/ (exists a, e = TypeError a).
Proof.
  unfold positive_number.
  destruct (negb (truthy v)); [discriminate |].
  destruct (to_float v) as [y | e'] eqn:Hf; cbn [and_then].
  - destruct (Rleb y 0); discriminate.
  - intro H. injection H as <-. apply (py_float_throws v). exact Hf.
Qed.

Lemma positive_number_of_number (x : R) :
  0 < x -> to_positive (JNumber x) = Done (Some x).
Proof.
  intro Hx. unfold positive_number, truthy, Reqb.
  destruct (Req_dec_T x 0) as [-> | _]; [lra |].
  cbn [negb py_float and_then].
  apply Rleb_false in Hx. rewrite Hx. reflexivity.
Qed.

Lemma required_some (v : json) (x : R) :
  to_required v = Done (Some x) -> to_float v = Done x.
Proof.
  unfold required.
  destruct v as [| b | y | [| c s] | l | m]; try discriminate;
    cbn [and_then];
    (destruct (py_float _ _) as [z | e];
     [cbn [and_then]; intro H; injection H as <-; reflexivity
     | discriminate]).
Qed.

Lemma required_throws (v : json) (e : py_error) :
  to_required v = Throw e ->
  (exists s, e = ValueError s) \/ (exists a, e = TypeError a).
Proof.
  unfold required. intro H.
  apply (py_float_throws v).
  destruct v as [| b | y | [| c s] | l | m]; try discriminate;
    (destruct (py_float _ _) as [z | e'];
     [discriminate | injection H as <-; reflexivity]).
Qed.

Lemma style_of_some (v : json) (ty : string) :
  style_of v = Some ty ->
  v = JString ty /\ (ty = "call"%string \/ ty = "put"%string).
Proof.
  destruct v as [| b | y | s | l | m]; try discriminate. simpl.
  destruct (String.eqb_spec s "call") as [-> | _]; simpl.
  - intro H. injection H as <-. tauto.
  - destruct (String.eqb_spec s "put") as [-> | _]; [| discriminate].
    intro H. injection H as <-. tauto.
Qed.

Lemma dict_get_throws (data : json) (key : string) (default : json)
  (e : py_error) :
  dict_get data key default = Throw e -> e = AttributeError data.
Proof.
  destruct data; simpl; intro H; try discriminate; injection H as <-;
    reflexivity.
Qed.

(** What [calculate_body] did when it got past the first checks. *)
Lemma calculate_body_validated (data : json) (answer : response) :
  calculate_body float_of_string data = Done answer ->
  (exists (S K T r : option R) (ty : option string),
      answer
      = bad_request (String.concat " " (validation_errors S K T r ty)))
  \/
  exists (S K T r : R) (ty : string) (calc_type : json),
    validated float_of_string data S K T r ty /\
    dict_get data "calcType" (JString "optionPrice") = Done calc_type /\
    (if equals_str calc_type "optionPrice" then
       sigma <-- dict_get data "volatility" JNull ;;;
       sigma <-- to_positive sigma ;;;
       match sigma with
       | None => Done (bad_request "Volatility must be a positive number.")
       | Some sigma' =>
           result <-- of_engine (black_scholes S K T r sigma' ty) ;;;
           match result with
           | None => Done (bad_request "Error in Black-Scholes calculation.")
           | Some result' => Done (Result (result_fields result'), 200%nat)
           end
       end
     else if equals_str calc_type "impliedVolatility" then
       option_price <-- dict_get data "optionPrice" JNull ;;;
       option_price <-- to_positive option_price ;;;
       match option_price with
       | None => Done (bad_request "Option Price must be a positive number.")
       | Some option_price' =>
           sigma <-- of_engine
                       (implied_volatility S K T r option_price' ty) ;;;
           match sigma with
           | None =>
               Done (bad_request "Implied volatility calculation failed.")
           | Some sigma' =>
               result <-- of_engine (black_scholes S K T r sigma' ty) ;;;
               match result with
               | None =>
                   Done (bad_request "Error in Black-Scholes calculation.")
               | Some result' =>
                   Done (Result (result_fields result'
                                 ++ [("impliedVolatility"%string, sigma')]),
                         200%nat)
               end
           end
       end
     else Done (bad_request "Invalid calculation type."))
    = Done answer.
Proof.
  unfold calculate_body.
  destruct (dict_get data "stockPrice" JNull) as [vS | e] eqn:GS;
    [cbn [and_then] | discriminate].
  destruct (dict_get data "strikePrice" JNull) as [vK | e] eqn:GK;
    [cbn [and_then] | discriminate].
  destruct (dict_get data "timeToMaturity" JNull) as [vT | e] eqn:GT;
    [cbn [and_then] | discriminate].
  destruct (dict_get data "riskFreeRate" JNull) as [vr | e] eqn:Gr;
    [cbn [and_then] | discriminate].
  destruct (dict_get data "optionType" JNull) as [vty | e] eqn:Gty;
    [cbn [and_then] | discriminate].
  destruct (dict_get data "calcType" (JString "optionPrice"))
    as [calc_type | e] eqn:Gc; [cbn [and_then] | discriminate].
  destruct (to_positive vS) as [oS | e] eqn:PS;
    [cbn [and_then] | discriminate].
  destruct (to_positive vK) as [oK | e] eqn:PK;
    [cbn [and_then] | discriminate].
  destruct (to_positive vT) as [oT | e] eqn:PT;
    [cbn [and_then] | discriminate].
  destruct (to_required vr) as [or | e] eqn:Pr;
    [cbn [and_then] | discriminate].
  assert (Hbad : forall answer',
             Done (bad_request
                     (String.concat " "
                        (validation_errors oS oK oT or (style_of vty))))
             = Done answer' ->
             exists (S K T r : option R) (ty : option string),
               answer'
               = bad_request
                   (String.concat " " (validation_errors S K T r ty))).
  { intros answer' H. injection H as <-.
    exists oS, oK, oT, or, (style_of vty). reflexivity. }
  destruct oS as [S |]; [| intro H; left; exact (Hbad _ H)].
  destruct oK as [K |]; [| intro H; left; exact (Hbad _ H)].
  destruct oT as [T |]; [| intro H; left; exact (Hbad _ H)].
  destruct or as [r |]; [| intro H; left; exact (Hbad _ H)].
  destruct (style_of vty) as [ty |] eqn:Sty;
    [| intro H; left; exact (Hbad _ H)].
  clear Hbad.
  intro H. right. exists S, K, T, r, ty, calc_type.
  apply positive_number_some in PS, PK, PT. apply required_some in Pr.
  apply style_of_some in Sty. destruct Sty as [-> Hty].
  split; [| split; [reflexivity | exact H]].
  unfold validated, field_value.
  repeat split; try tauto; eexists; split; try eassumption; tauto.
Qed.

Lemma validation_errors_text (S K T r : option R) (ty : option string) :
  String.concat " " (validation_errors S K T r ty)
  <> "Error in Black-Scholes calculation."%string.
Proof.
  destruct S, K, T, r, ty; discriminate.
Qed.

Lemma engine_answers (S K T r sigma : R) (ty : string) :
  0 < S -> 0 < K -> 0 < T -> 0 < sigma ->
  ty = "call"%string \/ ty = "put"%string ->
  exists res : PricingResult,
    of_engine (black_scholes S K T r sigma ty) = Done (Some res) /\
    black_scholes S K T r sigma ty = Returned (Some res).
Proof.
  intros HS HK HT Hs Hty.
  destruct (black_scholes_closed_form S K T r sigma ty) as (res & Hres & _);
    [repeat split; assumption | exact Hty |].
  exists res. rewrite Hres. split; reflexivity.
Qed.

Local Abbreviation answered := (answered float_of_string).

Lemma calculate_body_answers (data : json) (answer : response) :
  calculate_body float_of_string data = Done answer ->
  (exists (S K T r : option R) (ty : option string),
      answer
      = bad_request (String.concat " " (validation_errors S K T r ty)))
  \/
  exists (S K T r : R) (ty : string),
    validated float_of_string data S K T r ty /\
    answered S K T r ty data answer.
Proof.
  intro H. apply calculate_body_validated in H.
  destruct H as [H | (S & K & T & r & ty & calc_type & Hv & _ & H)];
    [left; exact H | right].
  exists S, K, T, r, ty. split; [exact Hv |].
  destruct Hv as (_ & HS & _ & HK & _ & HT & _ & _ & Hty).
  destruct (equals_str calc_type "optionPrice").
  - destruct (dict_get data "volatility" JNull) as [v | e] eqn:Gv;
      [cbn [and_then] in H | discriminate].
    destruct (to_positive v) as [[sigma |] | e] eqn:Pv;
      cbn [and_then] in H; [| | discriminate].
    + apply positive_number_some in Pv. destruct Pv as [Fv Hs].
      destruct (engine_answers S K T r sigma ty HS HK HT Hs Hty)
        as (res & He & Hres).
      rewrite He in H. cbn [and_then] in H. injection H as <-.
      apply (answered_price _ _ _ _ _ _ _ sigma res);
        [exists v; split; assumption | exact Hs | exact Hres].
    + injection H as <-. constructor.
  - destruct (equals_str calc_type "impliedVolatility");
      [| injection H as <-; constructor].
    destruct (dict_get data "optionPrice" JNull) as [v | e] eqn:Gv;
      [cbn [and_then] in H | discriminate].
    destruct (to_positive v) as [[p |] | e] eqn:Pv;
      cbn [and_then] in H; [| | discriminate].
    + apply positive_number_some in Pv. destruct Pv as [Fv Hp].
      assert (Hfield : field_value float_of_string data "optionPrice" p)
        by (exists v; split; assumption).
      destruct (implied_volatility S K T r p ty) as [[sigma |] | e] eqn:Hiv;
        cbn [of_engine and_then] in H.
      * pose proof (implied_volatility_returns _ _ _ _ _ _ _ Hiv)
          as (res & Hres & Hlt).
        rewrite Hres in H. cbn [of_engine and_then] in H.
        injection H as <-.
        apply (answered_volatility _ _ _ _ _ _ _ p sigma res); assumption.
      * injection H as <-.
        apply (answered_not_converged _ _ _ _ _ _ _ p); assumption.
      * exfalso.
        assert (He : implied_volatility S K T r p ty = Raised e) by exact Hiv.
        destruct e.
        apply implied_volatility_raises_zero_strike in He. lra.
    + injection H as <-. constructor.
Qed.

Ltac thrown G :=
  cbn [and_then];
  let H := fresh "H" in
  intro H; injection H as H; rewrite H in G;
  solve [eapply dict_get_throws in G; discriminate
        | eapply positive_number_throws in G;
          destruct G as [[? G] | [? G]]; discriminate
        | eapply required_throws in G;
          destruct G as [[? G] | [? G]]; discriminate].

Lemma calculate_body_throws (data : json) (e : py_error) :
  calculate_body float_of_string data = Throw e ->
  forall e' : exn, e <> EngineError e'.
Proof.
  intros H e' ->.
  revert H. unfold calculate_body.
  destruct (dict_get data "stockPrice" JNull) as [vS | e] eqn:GS;
    [cbn [and_then] | thrown GS].
  destruct (dict_get data "strikePrice" JNull) as [vK | e] eqn:GK;
    [cbn [and_then] | thrown GK].
  destruct (dict_get data "timeToMaturity" JNull) as [vT | e] eqn:GT;
    [cbn [and_then] | thrown GT].
  destruct (dict_get data "riskFreeRate" JNull) as [vr | e] eqn:Gr;
    [cbn [and_then] | thrown Gr].
  destruct (dict_get data "optionType" JNull) as [vty | e] eqn:Gty;
    [cbn [and_then] | thrown Gty].
  destruct (dict_get data "calcType" (JString "optionPrice"))
    as [calc_type | e] eqn:Gc;
    [cbn [and_then] | thrown Gc].
  destruct (to_positive vS) as [oS | e] eqn:PS;
    [cbn [and_then] | thrown PS].
  destruct (to_positive vK) as [oK | e] eqn:PK;
    [cbn [and_then] | thrown PK].
  destruct (to_positive vT) as [oT | e] eqn:PT;
    [cbn [and_then] | thrown PT].
  destruct (to_required vr) as [or | e] eqn:Pr;
    [cbn [and_then] | thrown Pr].
  destruct oS as [S |]; [| discriminate].
  destruct oK as [K |]; [| discriminate].
  destruct oT as [T |]; [| discriminate].
  destruct or as [r |]; [| discriminate].
  destruct (style_of vty) as [ty |] eqn:Sty; [| discriminate].
  apply positive_number_some in PS, PK, PT.
  apply style_of_some in Sty. destruct Sty as [_ Hty].
  destruct PS as [_ HS], PK as [_ HK], PT as [_ HT].
  destruct (equals_str calc_type "optionPrice").
  - destruct (dict_get data "volatility" JNull) as [v | e] eqn:Gv;
      [cbn [and_then] | thrown Gv].
    destruct (to_positive v) as [[sigma |] | e] eqn:Pv; cbn [and_then];
      [| discriminate | thrown Pv].
    apply positive_number_some in Pv. destruct Pv as [_ Hs].
    destruct (engine_answers S K T r sigma ty HS HK HT Hs Hty)
      as (res & -> & _). discriminate.
  - destruct (equals_str calc_type "impliedVolatility"); [| discriminate].
    destruct (dict_get data "optionPrice" JNull) as [v | e] eqn:Gv;
      [cbn [and_then] | thrown Gv].
    destruct (to_positive v) as [[p |] | e] eqn:Pv; cbn [and_then];
      [| discriminate | thrown Pv].
    destruct (implied_volatility S K T r p ty) as [[sigma |] | e] eqn:Hiv;
      cbn [of_engine and_then]; [| discriminate |].
    + pose proof (implied_volatility_returns _ _ _ _ _ _ _ Hiv)
        as (res & -> & _). discriminate.
    + destruct e. apply implied_volatility_raises_zero_strike in Hiv. lra.
Qed.

(** X14: [calculate] never answers "Error in Black-Scholes calculation."
    and never with the text of a [ZeroDivisionError] of the engine: what
    it passes to [black_scholes] is valid, and what [implied_volatility]
    returns is a volatility [black_scholes] accepts. *)
Theorem calculate_never_reports_model_error (data : json) :
  fst (calculate float_of_string data)
  <> ErrorMessage "Error in Black-Scholes calculation." /\
  fst (calculate float_of_string data)
  <> ExceptionText (EngineError ZeroDivisionError).
Proof.
  unfold calculate.
  destruct (calculate_body float_of_string data) as [answer | e] eqn:Hb.
  - apply calculate_body_answers in Hb.
    destruct Hb as [(S & K & T & r & ty & ->)
                   | (S & K & T & r & ty & _ & Ha)].
    + split; [| discriminate]. cbn [fst bad_request]. intro H.
      injection H as H. exact (validation_errors_text _ _ _ _ _ H).
    + destruct Ha; split; discriminate.
  - pose proof (calculate_body_throws data e Hb) as He.
    destruct e as [d | s | a | e']; split; try discriminate.
    intro H. exact (He e' eq_refl).
Qed.


Lemma required_of_number (x : R) : to_required (JNumber x) = Done (Some x).
Proof. reflexivity. Qed.



(** X17: an implied-volatility request with ln(S/K) + r*T = 0 (at the
    money with a zero rate, say) and a price above the intrinsic value is
    answered 400, "Implied volatility calculation failed.". *)
Theorem calculate_fails_at_the_forward
  (data : json) (S K T r p : R) (ty : string) :
  dict_get data "stockPrice" JNull = Done (JNumber S) ->
  dict_get data "strikePrice" JNull = Done (JNumber K) ->
  dict_get data "timeToMaturity" JNull = Done (JNumber T) ->
  dict_get data "riskFreeRate" JNull = Done (JNumber r) ->
  dict_get data "optionType" JNull = Done (JString ty) ->
  dict_get data "calcType" (JString "optionPrice")
  = Done (JString "impliedVolatility") ->
  dict_get data "optionPrice" JNull = Done (JNumber p) ->
  0 < S -> 0 < K -> 0 < T -> 0 < p ->
  ty = "call"%string \/ ty = "put"%string ->
  0 < p - (if String.eqb ty "call" then Rmax 0 (S - K) else Rmax 0 (K - S)) ->
  ln (S / K) + r * T = 0 ->
  calculate float_of_string data
  = bad_request "Implied volatility calculation failed.".
Proof.
  intros GS GK GT Gr Gty Gc Gv HS HK HT Hp Hty Htv Hln.
  unfold calculate, calculate_body.
  rewrite GS, GK, GT, Gr, Gty, Gc. cbn [and_then].
  rewrite !positive_number_of_number by assumption.
  rewrite required_of_number. cbn [and_then].
  assert (Hsty : style_of (JString ty) = Some ty)
    by (destruct Hty as [-> | ->]; reflexivity).
  rewrite Hsty. cbn [equals_str].
  replace (String.eqb "impliedVolatility" "optionPrice") with false
    by reflexivity.
  replace (String.eqb "impliedVolatility" "impliedVolatility") with true
    by reflexivity.
  rewrite Gv. cbn [and_then].
  rewrite positive_number_of_number by assumption. cbn [and_then].
  destruct (implied_volatility_invalid_guess S K T r p ty 0) as [_ Hiv].
  - apply manaster_koehler_zero; [lra | exact Htv | exact Hln].
  - apply black_scholes_violated. unfold violated. lra.
  - rewrite Hiv. reflexivity.
Qed.

(** X18: leaving "calcType" out is the same as asking for
    "optionPrice". *)
Theorem calculate_default_kind (members : list (string * json)) :
  assoc "calcType" members = None ->
  calculate float_of_string (JObject members)
  = calculate float_of_string
      (JObject (("calcType"%string, JString "optionPrice") :: members)).
Proof.
  intro Hno.
  assert (Hget : forall key default,
             String.eqb key "calcType" = false ->
             dict_get (JObject (("calcType"%string, JString "optionPrice")
                                :: members)) key default
             = dict_get (JObject members) key default).
  { intros key default Hk. unfold dict_get. cbn [assoc]. rewrite Hk.
    reflexivity. }
  assert (Hkind : forall default,
             dict_get (JObject (("calcType"%string, JString "optionPrice")
                                :: members)) "calcType" default
             = dict_get (JObject members) "calcType" (JString "optionPrice")).
  { intro default. unfold dict_get. cbn [assoc]. rewrite Hno.
    reflexivity. }
  unfold calculate, calculate_body.
  rewrite !Hget by reflexivity. rewrite Hkind. reflexivity.
Qed.

(** X19: a member that [float] cannot convert wins over the messages
    collected so far: with a strike that is a non-empty string [float]
    rejects, the answer is 400 with the text of the [ValueError],
    whatever the check of the stock price said. *)
Theorem calculate_conversion_error_first
  (data : json) (vS : json) (oS : option R) (text : string) :
  dict_get data "stockPrice" JNull = Done vS ->
  to_positive vS = Done oS ->
  dict_get data "strikePrice" JNull = Done (JString text) ->
  text <> ""%string ->
  float_of_string text = None ->
  calculate float_of_string data = (InvalidInput (ValueError text), 400%nat).
Proof.
  intros GS PS GK Hne Hf.
  destruct data as [| b | x | s | l | members]; try discriminate.
  unfold calculate, calculate_body.
  rewrite GS, GK. unfold dict_get at 1 2 3 4. cbn [and_then].
  rewrite PS. cbn [and_then].
  unfold positive_number at 1. cbn [truthy].
  apply String.eqb_neq in Hne. rewrite Hne. cbn [negb py_float].
  rewrite Hf. reflexivity.
Qed.

End CalculateProperties.

(** ** Witnesses of the properties of calculate *)




Lemma calculate_fails_at_the_forward_witness :
  calculate rejects_all volatility_request
  = bad_request "Implied volatility calculation failed.".
Proof.
  apply (calculate_fails_at_the_forward rejects_all volatility_request
           100 100 1 0 5 "put");
    try reflexivity; try lra.
  - right. reflexivity.
  - cbn [String.eqb Ascii.eqb Bool.eqb].
    replace (100 - 100) with 0 by ring. rewrite Rmax_left; lra.
  - replace (100 / 100) with 1 by field. rewrite ln_1. ring.
Defined.

Lemma calculate_default_kind_witness :
  calculate rejects_all pricing_request
  = calculate rejects_all
      (JObject (("calcType"%string, JString "optionPrice")
                :: [("stockPrice"%string, JNumber 100);
                    ("strikePrice"%string, JNumber 100);
                    ("timeToMaturity"%string, JNumber 1);
                    ("riskFreeRate"%string, JNumber 0);
                    ("optionType"%string, JString "call");
                    ("volatility"%string, JNumber 0.2)])).
Proof.
  apply (calculate_default_kind rejects_all). reflexivity.
Defined.

Lemma calculate_conversion_error_first_witness :
  calculate rejects_all broken_request
  = (InvalidInput (ValueError "abc"), 400%nat).
Proof.
  apply (calculate_conversion_error_first rejects_all broken_request
           JNull None "abc"); try reflexivity. discriminate.
Defined.
